(** * AuraLinkerBot (bot.py): URL extraction, host allow-list, message
    handler and temp-file janitor.

    Python [str] values are sequences of Unicode code points; they are
    modelled as lists of code points.  The chat SDK, the media fetcher, the
    file system and the event-loop clock are an outside world whose every
    answer (a value or a raised [Exception]) is left arbitrary; the handler
    is a program in a state-and-exception monad that logs each call it makes
    together with the answer it got. *)

From Stdlib Require Import Ascii String List NArith ZArith Bool Lia.
Import ListNotations.

Local Open Scope N_scope.

(** ** Strings *)

Definition char := N.
Definition str := list char.

(** An ASCII literal of the source as a list of code points. *)
Definition lit (s : string) : str := map N_of_ascii (list_ascii_of_string s).

(** [str.isspace] on one code point; the same set is used by [str.strip()]
    and by the regex class [\s] on [str] patterns. *)
Definition isspace (c : char) : bool :=
  ((0x09 <=? c) && (c <=? 0x0D)) || ((0x1C <=? c) && (c <=? 0x20))
  || (c =? 0x85) || (c =? 0xA0) || (c =? 0x1680)
  || ((0x2000 <=? c) && (c <=? 0x200A))
  || (c =? 0x2028) || (c =? 0x2029) || (c =? 0x202F) || (c =? 0x205F)
  || (c =? 0x3000).

Definition notspace (c : char) : bool := negb (isspace c).

Fixpoint drop_while (p : char -> bool) (s : str) : str :=
  match s with
  | [] => []
  | c :: tl => if p c then drop_while p tl else s
  end.

Fixpoint take_while (p : char -> bool) (s : str) : str :=
  match s with
  | [] => []
  | c :: tl => if p c then c :: take_while p tl else []
  end.

(** [text.strip()]: leading and trailing whitespace removed. *)
Definition lstrip (s : str) : str := drop_while isspace s.
Definition rstrip (s : str) : str := rev (drop_while isspace (rev s)).
Definition strip (s : str) : str := rstrip (lstrip s).

(** [needle in s] on strings: [needle] occurs at some position of [s]. *)
Fixpoint startswith (p s : str) : bool :=
  match p, s with
  | [], _ => true
  | _ :: _, [] => false
  | a :: p', b :: s' => (a =? b) && startswith p' s'
  end.

Fixpoint contains (needle s : str) : bool :=
  startswith needle s
  || match s with
     | [] => false
     | _ :: tl => contains needle tl
     end.

(** ** The regular expression of [URL_REGEX]

    A backtracking matcher for the constructs the pattern uses: one
    character of a class, concatenation, greedy [?] and greedy [+] over a
    class.  [run r s k] matches [r] at the start of [s] and hands the rest
    of the text to [k]; when [k] fails the matcher backtracks, longest
    alternative first. *)

Inductive regex : Type :=
| Eps
| Chr (p : char -> bool)
| Cat (r1 r2 : regex)
| Opt (r : regex)
| Plus (p : char -> bool).

Fixpoint plus_run {A : Type} (p : char -> bool) (s : str)
    (k : str -> option A) : option A :=
  match s with
  | [] => None
  | c :: tl =>
      if p c then
        match plus_run p tl k with
        | Some x => Some x
        | None => k tl
        end
      else None
  end.

Fixpoint run {A : Type} (r : regex) (s : str) (k : str -> option A)
    : option A :=
  match r with
  | Eps => k s
  | Chr p =>
      match s with
      | c :: tl => if p c then k tl else None
      | [] => None
      end
  | Cat r1 r2 => run r1 s (fun s' => run r2 s' k)
  | Opt r1 =>
      match run r1 s k with
      | Some x => Some x
      | None => k s
      end
  | Plus p => plus_run p s k
  end.

(** The text matched by [r] at the start of [s]. *)
Definition match_at (r : regex) (s : str) : option str :=
  match run r s (fun rest => Some rest) with
  | Some rest => Some (firstn (length s - length rest) s)
  | None => None
  end.

(** [pattern.search(s)]: the match at the leftmost position that has one. *)
Fixpoint search (r : regex) (s : str) : option str :=
  match match_at r s with
  | Some m => Some m
  | None =>
      match s with
      | [] => None
      | _ :: tl => search r tl
      end
  end.

(** The code points a pattern character [c] matches under [re.IGNORECASE]:
    [c] itself, the capital of a small ASCII letter, and for [s] also
    U+017F (LATIN SMALL LETTER LONG S, whose capital is [S]).  It is used at
    the characters of the pattern only: h, t, p, s, colon and slash. *)
Definition ignorecase (c x : char) : bool :=
  (x =? c)
  || ((0x61 <=? c) && (c <=? 0x7A) && (x =? c - 0x20))
  || ((c =? 0x73) && (x =? 0x17F)).

Definition cat_all (rs : list regex) : regex := fold_right Cat Eps rs.

Definition literal (s : string) : list regex :=
  map (fun c => Chr (ignorecase c)) (lit s).

(** [re.compile(r'(https?://[^\s]+)', re.IGNORECASE)]; the single group
    spans the whole pattern, so [m.group(1)] is the whole match. *)
Definition URL_REGEX : regex :=
  cat_all (literal "http" ++ [Opt (Chr (ignorecase 0x73))]
           ++ literal "://" ++ [Plus notspace]).

(** ** [extract_url] *)

Definition extract_url (text : str) : option str :=
  match text with
  | [] => None
  | _ =>
      match search URL_REGEX (strip text) with
      | None => None
      | Some url => Some url
      end
  end.

(** ** [supports_site]

    [str.lower] is the runtime's Unicode lower-casing of a whole string; it
    is taken as a parameter. *)

Definition ALLOWED_HOSTS : list str :=
  map lit ["youtube.com"; "youtu.be"; "tiktok.com"; "facebook.com";
           "fb.watch"]%string.

Definition supports_site (lower : str -> str) (url : str) : bool :=
  existsb (fun host => contains host (lower url)) ALLOWED_HOSTS.

(** Lower-casing of the ASCII capitals, every other code point unchanged:
    what [str.lower] does on a string of ASCII characters. *)
Definition ascii_lower (c : char) : char :=
  if (0x41 <=? c) && (c <=? 0x5A) then c + 0x20 else c.

Definition is_ascii (c : char) : bool := c <? 0x80.

(** ** The outside world *)

(** An instance of [Exception], with the text [str(e)] gives for it. *)
Record exn : Type := Exception { exn_str : str }.

Inductive result (A : Type) : Type :=
| Ok (a : A)
| Raise (e : exn).
Arguments Ok {A} a.
Arguments Raise {A} e.

Definition path := str.
Definition message := N.
Definition dict := list (str * str).
Inductive chat_action : Type := UPLOAD_VIDEO.

Fixpoint str_eqb (a b : str) : bool :=
  match a, b with
  | [], [] => true
  | x :: a', y :: b' => (x =? y) && str_eqb a' b'
  | _, _ => false
  end.

(** [info.get(key, default)] *)
Fixpoint dict_get (d : dict) (key default : str) : str :=
  match d with
  | [] => default
  | (k, v) :: tl => if str_eqb k key then v else dict_get tl key default
  end.

(** The calls the handler makes, each with the answer it received.  A send
    step stands for the whole block [with open(file_path, "rb") as f: await
    reply_video/reply_document(f, caption=...)]: its answer is the outcome
    of that block. *)
Inductive event : Type :=
| EvReplyText (text : str) (r : result message)
| EvSendAction (a : chat_action) (r : result unit)
| EvDownload (url : str) (r : result (path * dict))
| EvGetSize (file : path) (r : result Z)
| EvReplyVideo (file : path) (caption : str) (r : result unit)
| EvReplyDocument (file : path) (caption : str) (r : result unit)
| EvDelete (m : message) (r : result unit)
| EvEditText (m : message) (text : str) (r : result unit)
| EvGlob (r : result (list path))
| EvIsFile (p : path) (r : result bool)
| EvStat (p : path) (r : result Z)
| EvLoopTime (t : Z)
| EvUnlink (p : path) (r : result unit).

(** The collaborators, over a world state [W]: every call may change the
    world and answers with a value or with an exception that
    [except Exception] catches.  Times are in seconds. *)
Record runtime (W : Type) : Type := {
  (* [str.lower] *)
  str_lower : str -> str;
  (* [await update.message.reply_text(text)], giving the message sent *)
  reply_text : str -> W -> W * result message;
  (* [await update.message.chat.send_action(action)] *)
  send_action : chat_action -> W -> W * result unit;
  (* [await asyncio.to_thread(ytdlp_download, url)] *)
  ytdlp_download : str -> W -> W * result (path * dict);
  (* [os.path.getsize(file_path)] *)
  getsize : path -> W -> W * result Z;
  (* [with open(file_path, "rb") as f:
        await update.message.reply_video(video=f, caption=caption)] *)
  reply_video : path -> str -> W -> W * result unit;
  (* the same block with [reply_document(document=f, caption=caption)] *)
  reply_document : path -> str -> W -> W * result unit;
  (* [await status.delete()] and [await status.edit_text(text)] *)
  message_delete : message -> W -> W * result unit;
  message_edit_text : message -> str -> W -> W * result unit;
  (* [DOWNLOAD_DIR.glob("*")], the entries in iteration order *)
  glob_star : W -> W * result (list path);
  (* [p.is_file()] and [p.stat().st_mtime] *)
  is_file : path -> W -> W * result bool;
  stat_mtime : path -> W -> W * result Z;
  (* [asyncio.get_event_loop().time()], the loop's monotonic clock *)
  loop_time : W -> W * Z;
  (* [p.unlink(missing_ok=True)]: a missing file is not an error, so an
     exception here is one other than file-not-found *)
  unlink_missing_ok : path -> W -> W * result unit
}.
Arguments str_lower {W} _ _.
Arguments reply_text {W} _ _ _.
Arguments send_action {W} _ _ _.
Arguments ytdlp_download {W} _ _ _.
Arguments getsize {W} _ _ _.
Arguments reply_video {W} _ _ _ _.
Arguments reply_document {W} _ _ _ _.
Arguments message_delete {W} _ _ _.
Arguments message_edit_text {W} _ _ _ _.
Arguments glob_star {W} _ _.
Arguments is_file {W} _ _ _.
Arguments stat_mtime {W} _ _ _.
Arguments loop_time {W} _ _.
Arguments unlink_missing_ok {W} _ _ _.

(** ** State, trace and exceptions

    A program takes the world, and gives back the world it leaves, the
    calls it made in order, and a value or the exception it raised. *)

Definition M (W A : Type) : Type := W -> W * list event * result A.

Definition ret {W A : Type} (a : A) : M W A := fun w => (w, [], Ok a).

Definition bind {W A B : Type} (m : M W A) (k : A -> M W B) : M W B :=
  fun w =>
    match m w with
    | (w1, t1, Ok a) =>
        match k a w1 with
        | (w2, t2, r) => (w2, t1 ++ t2, r)
        end
    | (w1, t1, Raise e) => (w1, t1, Raise e)
    end.

(** A call to the world, logged with its answer. *)
Definition call {W A : Type} (f : W -> W * result A)
    (log : result A -> event) : M W A :=
  fun w => match f w with (w1, r) => (w1, [log r], r) end.

(** A reading of the world that cannot raise, logged with its value. *)
Definition read {W A : Type} (f : W -> W * A) (log : A -> event) : M W A :=
  fun w => match f w with (w1, a) => (w1, [log a], Ok a) end.

(** [try: m  except Exception as e: h e] *)
Definition try_except {W A : Type} (m : M W A) (h : exn -> M W A) : M W A :=
  fun w =>
    match m w with
    | (w1, t1, Ok a) => (w1, t1, Ok a)
    | (w1, t1, Raise e) =>
        match h e w1 with
        | (w2, t2, r) => (w2, t1 ++ t2, r)
        end
    end.

(** [try: m  finally: fin]: [fin] runs whatever [m] did; an exception of
    [fin] replaces the outcome of [m]. *)
Definition try_finally {W A : Type} (m : M W A) (fin : M W unit) : M W A :=
  fun w =>
    match m w with
    | (w1, t1, r) =>
        match fin w1 with
        | (w2, t2, Ok _) => (w2, t1 ++ t2, r)
        | (w2, t2, Raise e) => (w2, t1 ++ t2, Raise e)
        end
    end.

Fixpoint for_each {W A : Type} (l : list A) (body : A -> M W unit)
    : M W unit :=
  match l with
  | [] => ret tt
  | x :: tl => bind (body x) (fun _ => for_each tl body)
  end.

Notation "x <- c1 ;; c2" := (bind c1 (fun x => c2))
  (at level 61, c1 at next level, right associativity).
Notation "c1 ;; c2" := (bind c1 (fun _ => c2))
  (at level 61, right associativity).

(** The trace, the outcome and the final world of a program started in
    world [w]. *)
Definition trace_of {W A : Type} (m : M W A) (w : W) : list event :=
  snd (fst (m w)).
Definition outcome_of {W A : Type} (m : M W A) (w : W) : result A :=
  snd (m w).
Definition world_after {W A : Type} (m : M W A) (w : W) : W :=
  fst (fst (m w)).

(** ** The janitor and the message handler *)

(** [update.message.text or ""] *)
Definition text_or_empty (message_text : option str) : str :=
  match message_text with
  | Some t => t
  | None => []
  end.

Section Handler.

Context {W : Type} (rt : runtime W).

(** The body of the loop of the [finally] clause, for one entry [p] of the
    listing: [if p.is_file() and p.stat().st_mtime <
    (asyncio.get_event_loop().time() - 60*60): p.unlink(missing_ok=True)]. *)
Definition sweep_file (p : path) : M W unit :=
  f <- call (is_file rt p) (EvIsFile p) ;;
  if (f : bool) then
    mtime <- call (stat_mtime rt p) (EvStat p) ;;
    now <- read (loop_time rt) EvLoopTime ;;
    if (mtime <? now - 60 * 60)%Z
    then call (unlink_missing_ok rt p) (EvUnlink p)
    else ret tt
  else ret tt.

(** The [finally] clause of [handle_text]: one guarded loop over
    [DOWNLOAD_DIR.glob("*")]. *)
Definition janitor : M W unit :=
  try_except
    (ps <- call (glob_star rt) EvGlob ;;
     for_each ps sweep_file)
    (fun _ => ret tt).

Definition REJECTION : str :=
  0x274C :: lit " Please send a valid TikTok, YouTube, or Facebook link.".

Definition PROGRESS : str := 0x23F3 :: lit " Downloading your video...".

Definition video_caption (title : str) : str :=
  [0x2705; 0x20] ++ title ++ [0x0A; 0x1F30C]
  ++ lit " Thanks for using AuraLinkerBot!".

Definition document_caption (title : str) : str :=
  [0x2705; 0x20] ++ title ++ lit " (sent as file)" ++ [0x0A; 0x1F30C]
  ++ lit " Thanks for using AuraLinkerBot!".

(** [f"⚠️ Error: {e}"] *)
Definition error_text (e : exn) : str :=
  [0x26A0; 0xFE0F] ++ lit " Error: " ++ exn_str e.

(** [not url or not supports_site(url)] *)
Definition rejected (url : option str) : bool :=
  match url with
  | None => true
  | Some [] => true
  | Some u => negb (supports_site (str_lower rt) u)
  end.

Definition handle_text (message_text : option str) : M W unit :=
  let text := text_or_empty message_text in
  let url := extract_url text in
  if rejected url then
    call (reply_text rt REJECTION) (EvReplyText REJECTION) ;;
    ret tt
  else
    let url := match url with Some u => u | None => [] end in
    call (send_action rt UPLOAD_VIDEO) (EvSendAction UPLOAD_VIDEO) ;;
    status <- call (reply_text rt PROGRESS) (EvReplyText PROGRESS) ;;
    try_finally
      (try_except
         (fi <- call (ytdlp_download rt url) (EvDownload url) ;;
          let file_path := fst fi in
          let title := dict_get (snd fi) (lit "title") (lit "video") in
          call (getsize rt file_path) (EvGetSize file_path) ;;
          try_except
            (call (reply_video rt file_path (video_caption title))
                  (EvReplyVideo file_path (video_caption title)))
            (fun _ =>
               call (reply_document rt file_path (document_caption title))
                    (EvReplyDocument file_path (document_caption title))) ;;
          call (message_delete rt status) (EvDelete status))
         (fun e =>
            call (message_edit_text rt status (error_text e))
                 (EvEditText status (error_text e))))
      janitor.

End Handler.

(** ** A simulated world

    A directory listing with modification times, the event-loop clock, and
    scripted answers of the fetcher and of the two sends. *)

Record dirent : Type := { d_path : path; d_is_file : bool; d_mtime : Z }.

Record sim : Type := {
  sim_dir : list dirent;
  sim_loop_time : Z;
  sim_download : result (path * dict);
  sim_video : result unit;
  sim_document : result unit;
  sim_unlink : path -> result unit
}.

Definition sim_find (p : path) (w : sim) : option dirent :=
  find (fun d => str_eqb (d_path d) p) (sim_dir w).

Definition sim_remove (p : path) (w : sim) : sim :=
  {| sim_dir := filter (fun d => negb (str_eqb (d_path d) p)) (sim_dir w);
     sim_loop_time := sim_loop_time w;
     sim_download := sim_download w;
     sim_video := sim_video w;
     sim_document := sim_document w;
     sim_unlink := sim_unlink w |}.

Definition sim_rt : runtime sim :=
  {| str_lower := map ascii_lower;
     reply_text := fun _ w => (w, Ok 1);
     send_action := fun _ w => (w, Ok tt);
     ytdlp_download := fun _ w => (w, sim_download w);
     getsize := fun _ w => (w, Ok 1048576%Z);
     reply_video := fun _ _ w => (w, sim_video w);
     reply_document := fun _ _ w => (w, sim_document w);
     message_delete := fun _ w => (w, Ok tt);
     message_edit_text := fun _ _ w => (w, Ok tt);
     glob_star := fun w => (w, Ok (map d_path (sim_dir w)));
     is_file := fun p w =>
       (w, Ok match sim_find p w with
              | Some d => d_is_file d
              | None => false
              end);
     stat_mtime := fun p w =>
       (w, match sim_find p w with
           | Some d => Ok (d_mtime d)
           | None => Raise (Exception (lit "No such file or directory"))
           end);
     loop_time := fun w => (w, sim_loop_time w);
     unlink_missing_ok := fun p w =>
       match sim_unlink w p with
       | Ok _ => (sim_remove p w, Ok tt)
       | Raise e => (w, Raise e)
       end |}.

(** ** Vocabulary of the statements *)

(** [u] occurs in [s] as a contiguous substring. *)
Definition substring (u s : str) : Prop :=
  exists pre post, s = pre ++ u ++ post.

(** [sch] is [http://] or [https://] up to letter case. *)
Definition Scheme (sch : str) : Prop :=
  Forall2 (fun c x => ignorecase c x = true) (lit "http://") sch
  \/ Forall2 (fun c x => ignorecase c x = true) (lit "https://") sch.

(** [s] contains a substring beginning with a scheme. *)
Definition HasScheme (s : str) : Prop :=
  exists sch, Scheme sch /\ substring sch s.

(** [s] begins with a scheme followed by a character that is not
    whitespace. *)
Definition UrlStart (s : str) : Prop :=
  exists sch c tl, Scheme sch /\ isspace c = false /\ s = sch ++ c :: tl.

(** Decision procedures for [Scheme] at the start of a text and for
    [HasScheme]. *)
Fixpoint starts_ci (pat s : str) : bool :=
  match pat, s with
  | [], _ => true
  | _ :: _, [] => false
  | c :: pat', x :: s' => ignorecase c x && starts_ci pat' s'
  end.

Fixpoint has_scheme (s : str) : bool :=
  starts_ci (lit "http://") s || starts_ci (lit "https://") s
  || match s with
     | [] => false
     | _ :: tl => has_scheme tl
     end.

(** [rest] is empty or begins with whitespace. *)
Definition Boundary (rest : str) : Prop :=
  match rest with
  | [] => True
  | c :: _ => isspace c = true
  end.

Definition is_attachment (ev : event) : bool :=
  match ev with
  | EvReplyVideo _ _ _ | EvReplyDocument _ _ _ => true
  | _ => false
  end.

Definition is_document (ev : event) : bool :=
  match ev with
  | EvReplyDocument _ _ _ => true
  | _ => false
  end.

Definition is_unlink (ev : event) : bool :=
  match ev with
  | EvUnlink _ _ => true
  | _ => false
  end.

(** The events the janitor can log. *)
Definition is_janitor_event (ev : event) : bool :=
  match ev with
  | EvGlob _ | EvIsFile _ _ | EvStat _ _ | EvLoopTime _ | EvUnlink _ _ => true
  | _ => false
  end.

(** What holds of the calls [t] and the outcome [r] of a sweep, or of a part
    of one: only file-system calls and clock readings are made; an unlink
    that raises is the last call and its exception is the outcome; and an
    unlink of [q] comes with a modification time of [q] that is more than
    an hour below a reading of the event-loop clock. *)
Definition sweep_facts (t : list event) (r : result unit) : Prop :=
  forallb is_janitor_event t = true
  /\ (forall q e, In (EvUnlink q (Raise e)) t ->
        r = Raise e /\ exists pre, t = pre ++ [EvUnlink q (Raise e)])
  /\ (forall q r', In (EvUnlink q r') t ->
        exists m tm, In (EvStat q (Ok m)) t /\ In (EvLoopTime tm) t
                     /\ (m < tm - 60 * 60)%Z).

(** ** Scenarios in the simulated world *)

(** Wall-clock time of the scenarios, in seconds since the epoch, and the
    reading of the event loop's monotonic clock at the same moment. *)
Definition wall_now : Z := 1700000000.
Definition loop_now : Z := 5000.

Definition fresh_file : path := lit "/tmp/downloads/fresh.mp4".
Definition old_file : path := lit "/tmp/downloads/old.mp4".

(** Two regular files, modified 30 and 90 minutes before [wall_now]. *)
Definition two_files : list dirent :=
  [ {| d_path := fresh_file; d_is_file := true;
       d_mtime := wall_now - 30 * 60 |};
    {| d_path := old_file; d_is_file := true;
       d_mtime := wall_now - 90 * 60 |} ]%Z.

Definition clip : path * dict :=
  (lit "/tmp/downloads/clip.mp4", [(lit "title", lit "clip")]).

Definition sim_ok : sim :=
  {| sim_dir := two_files;
     sim_loop_time := loop_now;
     sim_download := Ok clip;
     sim_video := Ok tt;
     sim_document := Ok tt;
     sim_unlink := fun _ => Ok tt |}.

Definition sim_fetch_fails : sim :=
  {| sim_dir := two_files;
     sim_loop_time := loop_now;
     sim_download := Raise (Exception (lit "network timeout"));
     sim_video := Ok tt;
     sim_document := Ok tt;
     sim_unlink := fun _ => Ok tt |}.

Definition sim_video_fails : sim :=
  {| sim_dir := two_files;
     sim_loop_time := loop_now;
     sim_download := Ok clip;
     sim_video := Raise (Exception (lit "Request Entity Too Large"));
     sim_document := Ok tt;
     sim_unlink := fun _ => Ok tt |}.

(** The same directory seen by a clock that does read [wall_now]. *)
Definition sim_wall_clock : sim :=
  {| sim_dir := two_files;
     sim_loop_time := wall_now;
     sim_download := Ok clip;
     sim_video := Ok tt;
     sim_document := Ok tt;
     sim_unlink := fun _ => Ok tt |}.

(** Two files whose modification times lie far enough back for the
    janitor to unlink them, the first of which cannot be removed. *)
Definition sim_unlink_fails : sim :=
  {| sim_dir :=
       [ {| d_path := old_file; d_is_file := true; d_mtime := 1000 |};
         {| d_path := fresh_file; d_is_file := true; d_mtime := 1200 |} ]%Z;
     sim_loop_time := loop_now;
     sim_download := Ok clip;
     sim_video := Ok tt;
     sim_document := Ok tt;
     sim_unlink := fun _ => Raise (Exception (lit "Permission denied")) |}.

(** ** Further vocabulary *)

Definition is_download (ev : event) : bool :=
  match ev with
  | EvDownload _ _ => true
  | _ => false
  end.

Definition is_video (ev : event) : bool :=
  match ev with
  | EvReplyVideo _ _ _ => true
  | _ => false
  end.

Definition is_edit (ev : event) : bool :=
  match ev with
  | EvEditText _ _ _ => true
  | _ => false
  end.

(** An attachment send that succeeded. *)
Definition is_delivered (ev : event) : bool :=
  match ev with
  | EvReplyVideo _ _ (Ok _) | EvReplyDocument _ _ (Ok _) => true
  | _ => false
  end.

(** A call that was answered with an exception. *)
Definition raised (ev : event) : bool :=
  match ev with
  | EvReplyText _ (Raise _) | EvSendAction _ (Raise _)
  | EvDownload _ (Raise _) | EvGetSize _ (Raise _)
  | EvReplyVideo _ _ (Raise _) | EvReplyDocument _ _ (Raise _)
  | EvDelete _ (Raise _) | EvEditText _ _ (Raise _)
  | EvGlob (Raise _) | EvIsFile _ (Raise _) | EvStat _ (Raise _)
  | EvUnlink _ (Raise _) => true
  | _ => false
  end.

(** The entries a sweep looked at, in the order of its [is_file] calls. *)
Definition examined (t : list event) : list path :=
  flat_map (fun ev => match ev with
                      | EvIsFile p _ => [p]
                      | _ => []
                      end) t.

(** What a sweep of the listing [ps] keeps to: its calls are [is_file],
    [stat], clock readings and [unlink], each on an entry of [ps]; [stat]
    and [unlink] of [q] come after [is_file] answered true for [q]. *)
Definition sweep_scope (ps : list path) (t : list event) : Prop :=
  forall ev, In ev t ->
    match ev with
    | EvIsFile q _ => In q ps
    | EvStat q _ | EvUnlink q _ => In q ps /\ In (EvIsFile q (Ok true)) t
    | EvLoopTime _ => True
    | _ => False
    end.

(** An entry the janitor removes when the event-loop clock reads [now]. *)
Definition stale (now : Z) (d : dirent) : bool :=
  d_is_file d && (d_mtime d <? now - 60 * 60)%Z.

(** The simulated runtime with the answers of [os.path.getsize],
    [status.delete()] and [status.edit_text()] scripted as well. *)
Definition sim_rt_with (size : result Z) (del edit : result unit)
    : runtime sim :=
  {| str_lower := str_lower sim_rt;
     reply_text := reply_text sim_rt;
     send_action := send_action sim_rt;
     ytdlp_download := ytdlp_download sim_rt;
     getsize := fun _ w => (w, size);
     reply_video := reply_video sim_rt;
     reply_document := reply_document sim_rt;
     message_delete := fun _ w => (w, del);
     message_edit_text := fun _ _ w => (w, edit);
     glob_star := glob_star sim_rt;
     is_file := is_file sim_rt;
     stat_mtime := stat_mtime sim_rt;
     loop_time := loop_time sim_rt;
     unlink_missing_ok := unlink_missing_ok sim_rt |}.

(** The message of the scenarios that carry a supported link. *)
Definition link_message : option str :=
  Some (lit "watch this https://youtu.be/abc123 nice").

(** A fetch whose metadata carries no title. *)
Definition sim_untitled : sim :=
  {| sim_dir := two_files;
     sim_loop_time := loop_now;
     sim_download := Ok (lit "/tmp/downloads/NA.mp4", [(lit "ext", lit "mp4")]);
     sim_video := Ok tt;
     sim_document := Ok tt;
     sim_unlink := fun _ => Ok tt |}.

(** ** [ytdlp_download]

    The function itself, over the library calls it makes: each answers with
    a value or an exception.  [with_suffix_mp4 p] stands for
    [pathlib.Path(p).with_suffix(".mp4")] (as the string [str] gives for
    it), [YoutubeDL_enter] for building [yt_dlp.YoutubeDL(ydl_opts)] with
    the located ffmpeg and entering the [with] block, [YoutubeDL_exit] for
    leaving it. *)
Module Fetcher.

Record library : Type := {
  get_ffmpeg_exe : result str;
  YoutubeDL_enter : str -> result unit;
  extract_info : str -> result dict;
  prepare_filename : dict -> result path;
  os_path_exists : path -> bool;
  with_suffix_mp4 : path -> result path;
  Path_exists : path -> result bool;
  YoutubeDL_exit : result unit
}.

(** The body of the [with] block. *)
Definition download_block (lib : library) (url : str)
    : result (path * dict) :=
  match extract_info lib url with
  | Raise e => Raise e
  | Ok info =>
      match prepare_filename lib info with
      | Raise e => Raise e
      | Ok file_path =>
          if negb (os_path_exists lib file_path) then
            match with_suffix_mp4 lib file_path with
            | Raise e => Raise e
            | Ok alt =>
                match Path_exists lib alt with
                | Raise e => Raise e
                | Ok true => Ok (alt, info)
                | Ok false => Ok (file_path, info)
                end
            end
          else Ok (file_path, info)
      end
  end.

Definition ytdlp_download (lib : library) (url : str)
    : result (path * dict) :=
  match get_ffmpeg_exe lib with
  | Raise e => Raise e
  | Ok ffmpeg_path =>
      match YoutubeDL_enter lib ffmpeg_path with
      | Raise e => Raise e
      | Ok _ =>
          let r := download_block lib url in
          match YoutubeDL_exit lib with
          | Raise e => Raise e
          | Ok _ => r
          end
      end
  end.

(** A merged download: the prepared [.webm] name is absent, its [.mp4]
    sibling is there. *)
Definition merged : library :=
  {| get_ffmpeg_exe := Ok (lit "/usr/bin/ffmpeg");
     YoutubeDL_enter := fun _ => Ok tt;
     extract_info := fun _ => Ok [(lit "title", lit "clip")];
     prepare_filename := fun _ => Ok (lit "/tmp/downloads/clip.webm");
     os_path_exists := fun _ => false;
     with_suffix_mp4 := fun _ => Ok (lit "/tmp/downloads/clip.mp4");
     Path_exists := fun _ => Ok true;
     YoutubeDL_exit := Ok tt |}.

End Fetcher.

(** * Properties *)

(** ** The scenarios of the specification, evaluated *)

Example scenario_supported_link :
  extract_url (lit "watch this https://youtu.be/abc123 nice")
  = Some (lit "https://youtu.be/abc123")
  /\ supports_site (str_lower sim_rt) (lit "https://youtu.be/abc123") = true
  /\ trace_of
       (handle_text sim_rt
          (Some (lit "watch this https://youtu.be/abc123 nice")))
       sim_ok
     = [EvSendAction UPLOAD_VIDEO (Ok tt); EvReplyText PROGRESS (Ok 1);
        EvDownload (lit "https://youtu.be/abc123") (Ok clip);
        EvGetSize (fst clip) (Ok 1048576%Z);
        EvReplyVideo (fst clip) (video_caption (lit "clip")) (Ok tt);
        EvDelete 1 (Ok tt)]
       ++ trace_of (janitor sim_rt) sim_ok.
Proof. repeat split; vm_compute; reflexivity. Qed.

Example scenario_unsupported_host :
  extract_url (lit "https://example.com/video")
  = Some (lit "https://example.com/video")
  /\ trace_of (handle_text sim_rt (Some (lit "https://example.com/video")))
       sim_ok
     = [EvReplyText REJECTION (Ok 1)].
Proof. split; vm_compute; reflexivity. Qed.

Example extract_url_second_occurrence :
  extract_url (lit "http:// hTTps://a.b  x") = Some (lit "hTTps://a.b").
Proof. vm_compute. reflexivity. Qed.

Example extract_url_long_s :
  extract_url (lit "see http" ++ [0x17F] ++ lit "://a.b")
  = Some (lit "http" ++ [0x17F] ++ lit "://a.b").
Proof. vm_compute. reflexivity. Qed.

Example extract_url_no_break_space :
  extract_url (lit "HTTPS://a" ++ [0xA0] ++ lit "b") = Some (lit "HTTPS://a").
Proof. vm_compute. reflexivity. Qed.

(** ** Lists of code points *)

Lemma take_drop_while (p : char -> bool) (s : str) :
  s = take_while p s ++ drop_while p s.
Proof.
  induction s as [|c tl IH]; simpl; [reflexivity|].
  destruct (p c); simpl; [f_equal; exact IH | reflexivity].
Qed.

Lemma take_while_all (p : char -> bool) (s : str) :
  forallb p (take_while p s) = true.
Proof.
  induction s as [|c tl IH]; simpl; [reflexivity|].
  destruct (p c) eqn:E; simpl; [rewrite E; exact IH | reflexivity].
Qed.

Lemma drop_while_boundary (s : str) : Boundary (drop_while notspace s).
Proof.
  induction s as [|c tl IH]; simpl; [exact I|].
  unfold notspace at 1. destruct (isspace c) eqn:E; simpl; [exact E | exact IH].
Qed.

Lemma drop_while_app (p : char -> bool) (a b : str) :
  forallb p a = true -> drop_while p (a ++ b) = drop_while p b.
Proof.
  induction a as [|c tl IH]; simpl; [reflexivity|].
  intros H. apply andb_prop in H. destruct H as [Hc Ht].
  rewrite Hc. apply IH, Ht.
Qed.

Lemma drop_while_boundary_id (rest : str) :
  Boundary rest -> drop_while notspace rest = rest.
Proof.
  destruct rest as [|c tl]; simpl; [reflexivity|].
  intros H. unfold notspace. rewrite H. reflexivity.
Qed.

Lemma firstn_app_exact (a b : str) :
  firstn (length (a ++ b) - length b) (a ++ b) = a.
Proof.
  rewrite length_app.
  replace (length a + length b - length b)%nat with (length a + 0)%nat by lia.
  rewrite firstn_app_2. simpl. apply app_nil_r.
Qed.

(** ** The pattern characters *)

Lemma ignorecase_space (c x : char) :
  In c (lit "https:/") -> isspace x = true -> ignorecase c x = false.
Proof.
  intros Hc Hx. destruct (ignorecase c x) eqn:E; [|reflexivity].
  exfalso. simpl in Hc.
  repeat (destruct Hc as [Hc|Hc];
          [subst c; unfold ignorecase in E; simpl in E;
           repeat (apply orb_prop in E; destruct E as [E|E]);
           try discriminate E;
           apply N.eqb_eq in E; subst x; discriminate Hx|]).
  exact Hc.
Qed.

(** The code points matched by the letters of the pattern. *)
Lemma ignorecase_letter (c x : char) :
  In c (lit "htps") ->
  ignorecase c x = true
  <-> x = c \/ x = c - 0x20 \/ (c = 0x73 /\ x = 0x17F).
Proof.
  intros Hc. simpl in Hc. unfold ignorecase.
  rewrite !orb_true_iff, !andb_true_iff, !N.eqb_eq.
  destruct Hc as [<-|[<-|[<-|[<-|[]]]]]; simpl;
    intuition (try discriminate; auto).
Qed.

Lemma ignorecase_punct (c x : char) :
  c = 0x3A \/ c = 0x2F -> ignorecase c x = true -> x = c.
Proof.
  intros [Hc|Hc] E; subst c; unfold ignorecase in E; simpl in E;
    repeat (apply orb_prop in E; destruct E as [E|E]);
    try discriminate E; apply N.eqb_eq in E; exact E.
Qed.

Lemma Forall2_ignorecase_notspace (pat sch : str) :
  incl pat (lit "https:/") ->
  Forall2 (fun c x => ignorecase c x = true) pat sch ->
  forallb notspace sch = true.
Proof.
  intros Hin H. induction H as [|c x pat' sch' Hcx _ IH]; [reflexivity|].
  simpl. rewrite IH by (intros y Hy; apply Hin; right; exact Hy).
  unfold notspace. destruct (isspace x) eqn:E; [|reflexivity].
  rewrite (ignorecase_space c x) in Hcx; [discriminate|apply Hin; left; reflexivity|exact E].
Qed.

Lemma Scheme_notspace (sch : str) : Scheme sch -> forallb notspace sch = true.
Proof.
  intros [H|H]; eapply Forall2_ignorecase_notspace; try exact H;
    intros y Hy; simpl in Hy |- *; tauto.
Qed.

(** ** Matching at one position *)

Lemma plus_run_cons (p : char -> bool) (c : char) (tl : str) :
  plus_run p (c :: tl) (fun r => Some r)
  = if p c then Some (drop_while p tl) else None.
Proof.
  revert c. induction tl as [|c' tl' IH]; intros c.
  - simpl. destruct (p c); reflexivity.
  - change (plus_run p (c :: c' :: tl') (fun r => Some r))
      with (if p c then
              match plus_run p (c' :: tl') (fun r => Some r) with
              | Some x => Some x
              | None => Some (c' :: tl')
              end
            else None).
    rewrite IH. simpl. destruct (p c), (p c'); reflexivity.
Qed.

Ltac invert_scheme H :=
  unfold lit in H; simpl in H;
  repeat match goal with
         | F : Forall2 _ (_ :: _) _ |- _ => inversion F; clear F; subst
         | F : Forall2 _ [] _ |- _ => inversion F; clear F; subst
         end;
  repeat match goal with
         | E : ignorecase 58 _ = true |- _ =>
             apply ignorecase_punct in E; [subst | left; reflexivity]
         | E : ignorecase 47 _ = true |- _ =>
             apply ignorecase_punct in E; [subst | right; reflexivity]
         end.

Lemma run_URL_complete (sch body rest : str) :
  Scheme sch -> body <> [] -> forallb notspace body = true ->
  Boundary rest ->
  run URL_REGEX (sch ++ body ++ rest) (fun r => Some r) = Some rest.
Proof.
  intros Hs Hne Hb Hr.
  destruct body as [|b body']; [contradiction|].
  simpl in Hb. apply andb_prop in Hb. destruct Hb as [Hb Hb'].
  assert (Hplus : plus_run notspace ((b :: body') ++ rest) (fun r => Some r)
                  = Some rest).
  { change ((b :: body') ++ rest) with (b :: (body' ++ rest)).
    rewrite plus_run_cons, Hb, drop_while_app by exact Hb'.
    rewrite drop_while_boundary_id by exact Hr. reflexivity. }
  revert Hplus. generalize ((b :: body') ++ rest). intros tail Hplus.
  destruct Hs as [H|H]; invert_scheme H;
    unfold URL_REGEX, literal, lit; cbn -[ignorecase];
    repeat match goal with
           | E : ignorecase _ _ = true |- _ => rewrite E; clear E
           end;
    cbn; rewrite Hplus; reflexivity.
Qed.

Lemma run_tail_sound (s rest : str) :
  run (cat_all (literal "://" ++ [Plus notspace])) s (fun r => Some r)
  = Some rest ->
  exists body, s = lit "://" ++ body ++ rest /\ body <> []
               /\ forallb notspace body = true /\ Boundary rest.
Proof.
  unfold literal, lit. cbn -[ignorecase plus_run]. intros H.
  destruct s as [|c1 s]; [discriminate|].
  destruct (ignorecase 58 c1) eqn:E1; [|discriminate].
  destruct s as [|c2 s]; [discriminate|].
  destruct (ignorecase 47 c2) eqn:E2; [|discriminate].
  destruct s as [|c3 s]; [discriminate|].
  destruct (ignorecase 47 c3) eqn:E3; [|discriminate].
  destruct s as [|b s]; [discriminate|].
  apply ignorecase_punct in E1; [|left; reflexivity].
  apply ignorecase_punct in E2; [|right; reflexivity].
  apply ignorecase_punct in E3; [|right; reflexivity].
  subst c1 c2 c3.
  change (plus_run notspace (b :: s) (fun r => Some r) = Some rest) in H.
  rewrite plus_run_cons in H.
  destruct (notspace b) eqn:Eb; [|discriminate].
  injection H as H. subst rest.
  exists (b :: take_while notspace s). repeat split.
  - simpl. do 4 f_equal. apply take_drop_while.
  - discriminate.
  - simpl. rewrite Eb. apply take_while_all.
  - apply drop_while_boundary.
Qed.

Lemma run_URL_sound (s rest : str) :
  run URL_REGEX s (fun r => Some r) = Some rest ->
  exists sch body, Scheme sch /\ body <> [] /\ forallb notspace body = true
                   /\ Boundary rest /\ s = sch ++ body ++ rest.
Proof.
  pose (K := fun s' : str =>
               run (cat_all (literal "://" ++ [Plus notspace])) s'
                   (fun r => Some r)).
  assert (HK : forall s' r, K s' = Some r ->
               exists body, s' = lit "://" ++ body ++ r /\ body <> []
                            /\ forallb notspace body = true /\ Boundary r)
    by (intros s' r; apply run_tail_sound).
  change (run URL_REGEX s (fun r => Some r))
    with (run (cat_all (literal "http")) s
              (fun s1 => run (Opt (Chr (ignorecase 0x73))) s1 K)).
  clearbody K. unfold literal, lit. cbn -[ignorecase]. intros H.
  destruct s as [|x1 s]; [discriminate|].
  destruct (ignorecase 104 x1) eqn:E1; [|discriminate].
  destruct s as [|x2 s]; [discriminate|].
  destruct (ignorecase 116 x2) eqn:E2; [|discriminate].
  destruct s as [|x3 s]; [discriminate|].
  destruct (ignorecase 116 x3) eqn:E3; [|discriminate].
  destruct s as [|x4 s]; [discriminate|].
  destruct (ignorecase 112 x4) eqn:E4; [|discriminate].
  assert (Hhttp : forall t, K t = Some rest ->
            exists sch body, Scheme sch /\ body <> []
              /\ forallb notspace body = true /\ Boundary rest
              /\ x1 :: x2 :: x3 :: x4 :: t = sch ++ body ++ rest).
  { intros t Ht. apply HK in Ht. destruct Ht as (body & -> & Hne & Hb & Hr).
    exists [x1; x2; x3; x4; 58; 47; 47], body. repeat split; auto.
    left. unfold lit. simpl. repeat constructor; assumption. }
  destruct s as [|x5 tl]; [apply Hhttp, H|].
  destruct (ignorecase 115 x5) eqn:E5; [|apply Hhttp, H].
  destruct (K tl) as [r|] eqn:EK; [|apply Hhttp, H].
  injection H as H. subst r. apply HK in EK.
  destruct EK as (body & -> & Hne & Hb & Hr).
  exists [x1; x2; x3; x4; x5; 58; 47; 47], body. repeat split; auto.
  right. unfold lit. simpl. repeat constructor; assumption.
Qed.

(** A match of the pattern at the start of [s]: a scheme, a non-empty run
    of characters that are not whitespace, and then whitespace or the end
    of the text. *)
Lemma match_at_sound (s u : str) :
  match_at URL_REGEX s = Some u ->
  exists sch body rest,
    Scheme sch /\ body <> [] /\ forallb notspace body = true
    /\ Boundary rest /\ s = sch ++ body ++ rest /\ u = sch ++ body.
Proof.
  unfold match_at.
  destruct (run URL_REGEX s (fun r => Some r)) as [rest|] eqn:E;
    [|discriminate].
  intros H. injection H as H.
  apply run_URL_sound in E.
  destruct E as (sch & body & Hs & Hne & Hb & Hr & ->).
  exists sch, body, rest. repeat split; auto.
  subst u. rewrite !app_assoc. rewrite firstn_app_exact. reflexivity.
Qed.

Lemma match_at_complete (sch body rest : str) :
  Scheme sch -> body <> [] -> forallb notspace body = true ->
  Boundary rest ->
  match_at URL_REGEX (sch ++ body ++ rest) = Some (sch ++ body).
Proof.
  intros Hs Hne Hb Hr. unfold match_at.
  rewrite run_URL_complete by assumption.
  rewrite !app_assoc. rewrite firstn_app_exact. reflexivity.
Qed.

Lemma match_at_none (s : str) :
  ~ UrlStart s -> match_at URL_REGEX s = None.
Proof.
  intros Hn. destruct (match_at URL_REGEX s) as [u|] eqn:E; [|reflexivity].
  exfalso. apply Hn. apply match_at_sound in E.
  destruct E as (sch & body & rest & Hs & Hne & Hb & _ & -> & _).
  destruct body as [|b body']; [contradiction|].
  simpl in Hb. apply andb_prop in Hb. destruct Hb as [Hb _].
  exists sch, b, (body' ++ rest). repeat split; auto.
  unfold notspace in Hb. destruct (isspace b); [discriminate|reflexivity].
Qed.

Lemma match_at_urlstart (s : str) :
  UrlStart s -> match_at URL_REGEX s <> None.
Proof.
  intros (sch & c & tl & Hs & Hc & ->).
  rewrite (take_drop_while notspace tl).
  change (sch ++ c :: take_while notspace tl ++ drop_while notspace tl)
    with (sch ++ (c :: take_while notspace tl) ++ drop_while notspace tl).
  rewrite match_at_complete; try assumption; try discriminate.
  - simpl. unfold notspace at 1. rewrite Hc. apply take_while_all.
  - apply drop_while_boundary.
Qed.

(** ** Searching the whole text *)

Lemma search_cons (s : str) :
  search URL_REGEX s
  = match match_at URL_REGEX s with
    | Some m => Some m
    | None => match s with
              | [] => None
              | _ :: tl => search URL_REGEX tl
              end
    end.
Proof. destruct s; reflexivity. Qed.

Lemma search_none (s : str) :
  (forall p q, s = p ++ q -> ~ UrlStart q) -> search URL_REGEX s = None.
Proof.
  induction s as [|c tl IH]; intros H; rewrite search_cons.
  - rewrite match_at_none; [reflexivity|]. apply (H [] []). reflexivity.
  - rewrite match_at_none by (apply (H [] (c :: tl)); reflexivity).
    apply IH. intros p q E. apply (H (c :: p) q). simpl. f_equal. exact E.
Qed.

Lemma search_first (pre sch body rest : str) :
  Scheme sch -> body <> [] -> forallb notspace body = true ->
  Boundary rest ->
  (forall p q, pre ++ sch ++ body ++ rest = p ++ q ->
               (length p < length pre)%nat -> ~ UrlStart q) ->
  search URL_REGEX (pre ++ sch ++ body ++ rest) = Some (sch ++ body).
Proof.
  intros Hs Hne Hb Hr. induction pre as [|c pre' IH]; intros Hfirst.
  - rewrite search_cons. simpl app.
    rewrite match_at_complete by assumption. reflexivity.
  - rewrite search_cons.
    rewrite match_at_none.
    + simpl app. apply IH. intros p q E Hl.
      apply (Hfirst (c :: p) q); [simpl; f_equal; exact E | simpl; lia].
    + apply (Hfirst [] _); [reflexivity | simpl; lia].
Qed.

Lemma search_sound (s u : str) :
  search URL_REGEX s = Some u ->
  exists pre sch body rest,
    Scheme sch /\ body <> [] /\ forallb notspace body = true
    /\ Boundary rest /\ s = pre ++ sch ++ body ++ rest /\ u = sch ++ body
    /\ (forall p q, s = p ++ q -> (length p < length pre)%nat ->
                    ~ UrlStart q).
Proof.
  induction s as [|c tl IH]; rewrite search_cons; intros H.
  - destruct (match_at URL_REGEX []) as [m|] eqn:E; [|discriminate].
    injection H as H. subst m. apply match_at_sound in E.
    destruct E as (sch & body & rest & Hs & Hne & Hb & Hr & E & Hu).
    exists [], sch, body, rest. repeat split; auto.
    intros p q _ Hl. simpl in Hl. lia.
  - destruct (match_at URL_REGEX (c :: tl)) as [m|] eqn:E.
    + injection H as H. subst m. apply match_at_sound in E.
      destruct E as (sch & body & rest & Hs & Hne & Hb & Hr & E & Hu).
      exists [], sch, body, rest. repeat split; auto.
      intros p q _ Hl. simpl in Hl. lia.
    + apply IH in H.
      destruct H as (pre & sch & body & rest & Hs & Hne & Hb & Hr & Etl & Hu
                     & Hfirst).
      exists (c :: pre), sch, body, rest. repeat split; auto.
      * simpl. f_equal. exact Etl.
      * intros p q Epq Hl Hq. destruct p as [|c' p'].
        -- simpl in Epq. subst q.
           apply match_at_urlstart in Hq. contradiction.
        -- simpl in Epq. injection Epq as _ Epq.
           apply (Hfirst p' q Epq); [simpl in Hl; lia | exact Hq].
Qed.

(** ** [strip] does not change the result of the search *)

Lemma Boundary_app (rest ws : str) :
  Boundary rest -> forallb isspace ws = true -> Boundary (rest ++ ws).
Proof.
  destruct rest as [|c tl]; simpl; [|tauto].
  intros _. destruct ws as [|w ws']; simpl; [tauto|].
  intros H. apply andb_prop in H. tauto.
Qed.

Lemma match_at_space (c : char) (s : str) :
  isspace c = true -> match_at URL_REGEX (c :: s) = None.
Proof.
  intros Hc. apply match_at_none. intros (sch & c' & tl & Hs & _ & E).
  pose proof (Scheme_notspace sch Hs) as Hn.
  destruct sch as [|x sch'].
  - destruct Hs as [H|H]; inversion H.
  - simpl in E. injection E as E _. subst x. simpl in Hn.
    unfold notspace in Hn. rewrite Hc in Hn. discriminate.
Qed.

Lemma search_blank (s : str) :
  forallb isspace s = true -> search URL_REGEX s = None.
Proof.
  induction s as [|c tl IH]; intros H; rewrite search_cons.
  - reflexivity.
  - simpl in H. apply andb_prop in H. destruct H as [Hc Ht].
    rewrite match_at_space by exact Hc. apply IH, Ht.
Qed.

Lemma search_lstrip (s : str) :
  search URL_REGEX (lstrip s) = search URL_REGEX s.
Proof.
  unfold lstrip. induction s as [|c tl IH]; [reflexivity|].
  simpl drop_while. destruct (isspace c) eqn:Hc; [|reflexivity].
  rewrite IH. rewrite (search_cons (c :: tl)).
  rewrite match_at_space by exact Hc. reflexivity.
Qed.

Lemma match_at_app_space (s ws : str) :
  forallb isspace ws = true ->
  match_at URL_REGEX (s ++ ws) = match_at URL_REGEX s.
Proof.
  intros Hws. destruct (match_at URL_REGEX s) as [u|] eqn:E1.
  - apply match_at_sound in E1.
    destruct E1 as (sch & body & rest & Hs & Hne & Hb & Hr & -> & ->).
    rewrite <- !app_assoc. apply match_at_complete; auto.
    apply Boundary_app; assumption.
  - destruct (match_at URL_REGEX (s ++ ws)) as [u|] eqn:E2; [|reflexivity].
    exfalso. apply match_at_sound in E2.
    destruct E2 as (sch & body & rest & Hs & Hne & Hb & Hr & E & _).
    rewrite app_assoc in E. apply app_eq_app in E.
    destruct E as (l & [[E Er]|[E Ew]]).
    + subst s. rewrite <- app_assoc in E1.
      rewrite match_at_complete in E1; auto; [discriminate|].
      destruct l as [|c l']; simpl; [exact I|]. subst rest. exact Hr.
    + destruct l as [|c l'].
      * rewrite app_nil_r in E. subst s.
        rewrite <- (app_nil_r body) in E1.
        rewrite match_at_complete in E1; auto; [discriminate|exact I].
      * subst ws. simpl in Hws. apply andb_prop in Hws.
        destruct Hws as [Hc _].
        assert (Hall : forallb notspace (sch ++ body) = true)
          by (rewrite forallb_app, Hb, Scheme_notspace by exact Hs;
              reflexivity).
        rewrite E, forallb_app in Hall. simpl in Hall.
        unfold notspace at 2 in Hall. rewrite Hc in Hall. simpl in Hall.
        rewrite andb_false_r in Hall. discriminate.
Qed.

Lemma search_app_space (s ws : str) :
  forallb isspace ws = true ->
  search URL_REGEX (s ++ ws) = search URL_REGEX s.
Proof.
  intros Hws. induction s as [|c tl IH].
  - simpl app. rewrite search_blank by exact Hws. reflexivity.
  - rewrite (search_cons (c :: tl)), (search_cons ((c :: tl) ++ ws)).
    rewrite match_at_app_space by exact Hws.
    destruct (match_at URL_REGEX (c :: tl)); [reflexivity | exact IH].
Qed.

Lemma rstrip_split (s : str) :
  exists ws, forallb isspace ws = true /\ s = rstrip s ++ ws.
Proof.
  exists (rev (take_while isspace (rev s))). split.
  - apply forallb_forall. intros x Hx. apply in_rev in Hx.
    pose proof (take_while_all isspace (rev s)) as H.
    rewrite forallb_forall in H. apply H, Hx.
  - unfold rstrip. rewrite <- rev_app_distr, <- take_drop_while.
    symmetry. apply rev_involutive.
Qed.

Lemma search_strip (s : str) :
  search URL_REGEX (strip s) = search URL_REGEX s.
Proof.
  unfold strip. destruct (rstrip_split (lstrip s)) as (ws & Hws & E).
  rewrite <- (search_lstrip s). rewrite E at 2.
  rewrite search_app_space by exact Hws. reflexivity.
Qed.

Lemma extract_url_search (text : str) :
  extract_url text = search URL_REGEX text.
Proof.
  unfold extract_url. destruct text as [|c tl]; [reflexivity|].
  rewrite search_strip. destruct (search URL_REGEX (c :: tl)); reflexivity.
Qed.

(** ** Substring tests *)

Lemma startswith_spec (p s : str) :
  startswith p s = true <-> exists post, s = p ++ post.
Proof.
  revert s. induction p as [|a p' IH]; intros s; simpl.
  - split; [intros _; exists s; reflexivity | reflexivity].
  - destruct s as [|b s'].
    + split; [discriminate | intros (post & E); discriminate E].
    + rewrite andb_true_iff, N.eqb_eq, IH. split.
      * intros (-> & post & ->). exists post. reflexivity.
      * intros (post & E). injection E as -> ->. split; [reflexivity|].
        exists post. reflexivity.
Qed.

Lemma contains_spec (needle s : str) :
  contains needle s = true <-> substring needle s.
Proof.
  unfold substring. induction s as [|c tl IH].
  - simpl. rewrite orb_false_r, startswith_spec. split.
    + intros (post & E). exists [], post. exact E.
    + intros (pre & post & E). destruct pre as [|x pre']; [|discriminate E].
      exists post. exact E.
  - change (contains needle (c :: tl))
      with (startswith needle (c :: tl) || contains needle tl).
    rewrite orb_true_iff, startswith_spec, IH. split.
    + intros [(post & E)|(pre & post & E)].
      * exists [], post. exact E.
      * exists (c :: pre), post. simpl. f_equal. exact E.
    + intros (pre & post & E). destruct pre as [|x pre'].
      * left. exists post. exact E.
      * right. injection E as _ E. exists pre', post. exact E.
Qed.

Lemma starts_ci_spec (pat s : str) :
  starts_ci pat s = true
  <-> exists pre post, s = pre ++ post
        /\ Forall2 (fun c x => ignorecase c x = true) pat pre.
Proof.
  revert s. induction pat as [|c pat' IH]; intros s; simpl.
  - split; [intros _; exists [], s; split; [reflexivity|constructor] | reflexivity].
  - destruct s as [|x s'].
    + split; [discriminate|].
      intros (pre & post & E & F). inversion F; subst. discriminate E.
    + rewrite andb_true_iff, IH. split.
      * intros (Hx & pre & post & -> & F). exists (x :: pre), post.
        split; [reflexivity | constructor; assumption].
      * intros (pre & post & E & F). inversion F; subst.
        injection E as -> ->. split; [assumption|].
        eexists _, post. split; [reflexivity | eassumption].
Qed.

Lemma has_scheme_spec (s : str) : has_scheme s = true <-> HasScheme s.
Proof.
  unfold HasScheme, substring, Scheme. induction s as [|c tl IH].
  - split; [discriminate|].
    intros (sch & Hs & pre & post & E).
    destruct pre as [|x pre']; [|discriminate E].
    destruct sch as [|x sch']; [|discriminate E].
    destruct Hs as [F|F]; inversion F.
  - change (has_scheme (c :: tl))
      with (starts_ci (lit "http://") (c :: tl)
            || starts_ci (lit "https://") (c :: tl) || has_scheme tl).
    rewrite !orb_true_iff, !starts_ci_spec, IH. split.
    + intros [[(pre & post & E & F)|(pre & post & E & F)]
             |(sch & Hs & pre & post & E)].
      * exists pre. split; [tauto|]. exists [], post. exact E.
      * exists pre. split; [tauto|]. exists [], post. exact E.
      * exists sch. split; [exact Hs|]. exists (c :: pre), post.
        simpl. f_equal. exact E.
    + intros (sch & Hs & pre & post & E). destruct pre as [|x pre'].
      * left. simpl in E.
        destruct Hs as [F|F]; [left|right]; exists sch, post; tauto.
      * right. injection E as _ E. exists sch. split; [exact Hs|].
        exists pre', post. exact E.
Qed.

Lemma search_some (p q : str) :
  UrlStart q -> search URL_REGEX (p ++ q) <> None.
Proof.
  intros Hq. induction p as [|c p' IH]; rewrite search_cons.
  - apply match_at_urlstart in Hq. simpl app.
    destruct (match_at URL_REGEX q); [discriminate | contradiction].
  - destruct (match_at URL_REGEX ((c :: p') ++ q)); [discriminate|].
    exact IH.
Qed.

(** ** URL extraction *)

(** The match is determined by its position: when no earlier position
    starts a URL, the text [pre ++ sch ++ body ++ rest] yields
    [sch ++ body]. *)
Lemma extract_url_at (pre sch body rest : str) :
  Scheme sch -> body <> [] -> forallb notspace body = true ->
  Boundary rest ->
  (forall p q, pre ++ sch ++ body ++ rest = p ++ q ->
               (length p < length pre)%nat -> ~ UrlStart q) ->
  extract_url (pre ++ sch ++ body ++ rest) = Some (sch ++ body).
Proof.
  intros. rewrite extract_url_search. apply search_first; assumption.
Qed.

Lemma extract_url_none_iff (text : str) :
  extract_url text = None
  <-> forall p q, text = p ++ q -> ~ UrlStart q.
Proof.
  rewrite extract_url_search. split.
  - intros H p q -> Hq. exact (search_some p q Hq H).
  - apply search_none.
Qed.

(** C7, as written, fails: the text [http://] contains a substring that
    begins with [http://], and extraction finds no URL in it. *)
Lemma extract_url_bare_scheme :
  HasScheme (lit "http://") /\ extract_url (lit "http://") = None.
Proof.
  split; [apply has_scheme_spec; reflexivity | reflexivity].
Qed.

(** C7 (amended): when the text has a position at which [http://] or
    [https://] (in any letter case) is immediately followed by a character
    that is not whitespace, extraction returns the scheme at the first such
    position together with the whole run of non-whitespace characters after
    it, which ends at whitespace or at the end of the text. *)
Theorem extract_url_first (text : str) :
  (exists p q, text = p ++ q /\ UrlStart q) ->
  exists pre sch body rest,
    text = pre ++ sch ++ body ++ rest
    /\ Scheme sch /\ body <> [] /\ forallb notspace body = true
    /\ Boundary rest
    /\ (forall p q, text = p ++ q -> (length p < length pre)%nat ->
                    ~ UrlStart q)
    /\ extract_url text = Some (sch ++ body).
Proof.
  intros (p & q & -> & Hq). rewrite extract_url_search.
  destruct (search URL_REGEX (p ++ q)) as [u|] eqn:E.
  - apply search_sound in E.
    destruct E as (pre & sch & body & rest & Hs & Hne & Hb & Hr & E & -> & Hf).
    exists pre, sch, body, rest. repeat split; assumption.
  - exfalso. exact (search_some p q Hq E).
Qed.

Lemma extract_url_first_witness :
  (exists p q, lit "watch this https://youtu.be/abc123 nice" = p ++ q
               /\ UrlStart q)
  /\ exists pre sch body rest,
       lit "watch this https://youtu.be/abc123 nice"
       = pre ++ sch ++ body ++ rest
       /\ Scheme sch /\ body <> [] /\ forallb notspace body = true
       /\ Boundary rest
       /\ (forall p q, lit "watch this https://youtu.be/abc123 nice" = p ++ q ->
                       (length p < length pre)%nat -> ~ UrlStart q)
       /\ extract_url (lit "watch this https://youtu.be/abc123 nice")
          = Some (sch ++ body).
Proof.
  assert (H : exists p q,
             lit "watch this https://youtu.be/abc123 nice" = p ++ q
             /\ UrlStart q).
  { exists (lit "watch this "), (lit "https://youtu.be/abc123 nice").
    split; [reflexivity|].
    exists (lit "https://"), 0x79, (lit "outu.be/abc123 nice").
    split; [|split; reflexivity].
    right. unfold lit. simpl. repeat constructor. }
  split; [exact H|].
  apply (extract_url_first (lit "watch this https://youtu.be/abc123 nice")).
  exact H.
Defined.

(** C8: a text with no substring [http://] or [https://] (in any letter
    case), and likewise an empty or blank text, yields no URL. *)
Theorem extract_url_not_found (text : str) :
  ~ HasScheme text \/ forallb isspace text = true ->
  extract_url text = None.
Proof.
  rewrite extract_url_search. intros [H|H].
  - apply search_none. intros p q E (sch & c & tl & Hs & _ & Eq).
    apply H. exists sch. split; [exact Hs|].
    exists p, (c :: tl). subst. reflexivity.
  - apply search_blank, H.
Qed.

Lemma extract_url_not_found_witness :
  (~ HasScheme (lit "hello world")
   \/ forallb isspace (lit "hello world") = true)
  /\ extract_url (lit "hello world") = None.
Proof.
  assert (H : ~ HasScheme (lit "hello world")).
  { intros H. apply has_scheme_spec in H. vm_compute in H. discriminate H. }
  split; [left; exact H|].
  apply (extract_url_not_found (lit "hello world")). left. exact H.
Defined.

(** C9: a URL returned by extraction is a contiguous substring of the
    text, begins with [http://] or [https://] up to letter case, has at
    least one character after the scheme, and contains no whitespace. *)
Theorem extract_url_shape (text u : str) :
  extract_url text = Some u ->
  substring u text
  /\ (exists sch body, u = sch ++ body /\ Scheme sch /\ body <> [])
  /\ forallb notspace u = true.
Proof.
  rewrite extract_url_search. intros H. apply search_sound in H.
  destruct H as (pre & sch & body & rest & Hs & Hne & Hb & Hr & -> & -> & _).
  split; [|split].
  - exists pre, rest. rewrite <- app_assoc. reflexivity.
  - exists sch, body. auto.
  - rewrite forallb_app, Hb, Scheme_notspace by exact Hs. reflexivity.
Qed.

Lemma extract_url_shape_witness :
  extract_url (lit "see HTTP://youtu.be/x now") = Some (lit "HTTP://youtu.be/x")
  /\ substring (lit "HTTP://youtu.be/x") (lit "see HTTP://youtu.be/x now")
  /\ (exists sch body,
        lit "HTTP://youtu.be/x" = sch ++ body /\ Scheme sch /\ body <> [])
  /\ forallb notspace (lit "HTTP://youtu.be/x") = true.
Proof.
  split; [reflexivity|].
  apply (extract_url_shape (lit "see HTTP://youtu.be/x now")).
  reflexivity.
Defined.

(** ** The allow-list filter *)

(** C4: [supports_site] answers true exactly when the lower-cased URL
    contains one of the allow-listed hosts as a substring, wherever it
    stands; so [check http://evil.com/youtube.com/x] passes.  The
    lower-casing of the runtime is only required to act on ASCII text as
    expected. *)
Theorem supports_site_substring (lower : str -> str) :
  (forall s, forallb is_ascii s = true -> lower s = map ascii_lower s) ->
  (forall url,
     supports_site lower url = true
     <-> exists host, In host ALLOWED_HOSTS /\ substring host (lower url))
  /\ supports_site lower (lit "check http://evil.com/youtube.com/x") = true.
Proof.
  intros Hl. split.
  - intros url. unfold supports_site. rewrite existsb_exists.
    split; intros (host & Hin & H); exists host; (split; [exact Hin|]);
      apply contains_spec; exact H.
  - unfold supports_site. rewrite Hl by reflexivity. reflexivity.
Qed.

Lemma supports_site_substring_witness :
  (forall s, forallb is_ascii s = true ->
             map ascii_lower s = map ascii_lower s)
  /\ (forall url,
        supports_site (map ascii_lower) url = true
        <-> exists host, In host ALLOWED_HOSTS
                         /\ substring host (map ascii_lower url))
  /\ supports_site (map ascii_lower)
       (lit "check http://evil.com/youtube.com/x") = true.
Proof.
  split; [intros s _; reflexivity|].
  apply (supports_site_substring (map ascii_lower)).
  intros s _. reflexivity.
Defined.

(** ** The janitor *)

Lemma sweep_facts_nil (r : result unit) : sweep_facts [] r.
Proof.
  unfold sweep_facts. simpl. repeat split; intros; contradiction.
Qed.

Lemma sweep_facts_app (t1 t2 : list event) (u : unit) (r : result unit) :
  sweep_facts t1 (Ok u) -> sweep_facts t2 r -> sweep_facts (t1 ++ t2) r.
Proof.
  intros (A1 & B1 & C1) (A2 & B2 & C2). unfold sweep_facts.
  split; [|split].
  - rewrite forallb_app, A1, A2. reflexivity.
  - intros q e H. apply in_app_or in H. destruct H as [H|H].
    + apply B1 in H. destruct H as [H _]. discriminate H.
    + apply B2 in H. destruct H as [Hr (pre & ->)].
      split; [exact Hr|]. exists (t1 ++ pre). apply app_assoc.
  - intros q r' H. apply in_app_or in H. destruct H as [H|H].
    + apply C1 in H. destruct H as (m & tm & H1 & H2 & H3).
      exists m, tm. repeat split; try apply in_or_app; auto.
    + apply C2 in H. destruct H as (m & tm & H1 & H2 & H3).
      exists m, tm. repeat split; try apply in_or_app; auto.
Qed.

Ltac sweep_leaf :=
  unfold sweep_facts; simpl; split; [reflexivity|split]; intros;
  repeat match goal with
         | H : _ \/ _ |- _ => destruct H
         | H : False |- _ => contradiction H
         | H : @eq event _ _ |- _ => discriminate H
         | H : @eq event _ _ |- _ => inversion H; subst; clear H
         end.

Section Janitor.

Context {W : Type} (rt : runtime W).

Lemma sweep_file_facts (p : path) (w : W) :
  sweep_facts (trace_of (sweep_file rt p) w) (outcome_of (sweep_file rt p) w).
Proof.
  unfold sweep_file, trace_of, outcome_of, bind, call, read, ret.
  destruct (is_file rt p w) as [w1 [[|]|e1]]; try sweep_leaf.
  destruct (stat_mtime rt p w1) as [w2 [m|e2]]; try sweep_leaf.
  destruct (loop_time rt w2) as [w3 tm].
  destruct (m <? tm - 60 * 60)%Z eqn:Hold; try sweep_leaf.
  destruct (unlink_missing_ok rt p w3) as [w4 [u|e4]]; sweep_leaf.
  - exists m, tm. apply Z.ltb_lt in Hold.
    split; [right; left; reflexivity|].
    split; [right; right; left; reflexivity | exact Hold].
  - split; [reflexivity|].
    exists [EvIsFile q (Ok true); EvStat q (Ok m); EvLoopTime tm].
    reflexivity.
  - exists m, tm. apply Z.ltb_lt in Hold.
    split; [right; left; reflexivity|].
    split; [right; right; left; reflexivity | exact Hold].
Qed.

Lemma for_each_facts (ps : list path) (w : W) :
  sweep_facts (trace_of (for_each ps (sweep_file rt)) w)
              (outcome_of (for_each ps (sweep_file rt)) w).
Proof.
  revert w. induction ps as [|p tl IH]; intros w.
  - apply sweep_facts_nil.
  - pose proof (sweep_file_facts p w) as Hp.
    unfold trace_of, outcome_of in *. simpl. unfold bind.
    destruct (sweep_file rt p w) as [[w1 t1] [u|e]]; simpl in *.
    + specialize (IH w1).
      destruct (for_each tl (sweep_file rt) w1) as [[w2 t2] r]. simpl in *.
      eapply sweep_facts_app; eassumption.
    + exact Hp.
Qed.

(** The janitor never raises, and its calls satisfy [sweep_facts] for the
    outcome of its guarded body. *)
Lemma janitor_run (w : W) :
  outcome_of (janitor rt) w = Ok tt
  /\ exists r, sweep_facts (trace_of (janitor rt) w) r.
Proof.
  unfold janitor, trace_of, outcome_of, try_except, bind, call, ret.
  destruct (glob_star rt w) as [w1 [ps|e]]; simpl.
  - pose proof (for_each_facts ps w1) as H.
    unfold trace_of, outcome_of in H.
    destruct (for_each ps (sweep_file rt) w1) as [[w2 t2] [[]|e]];
      simpl in *.
    + split; [reflexivity|]. exists (Ok tt).
      apply (sweep_facts_app [EvGlob (Ok ps)] t2 tt); [sweep_leaf | exact H].
    + split; [reflexivity|]. exists (Raise e). rewrite app_nil_r.
      apply (sweep_facts_app [EvGlob (Ok ps)] t2 tt); [sweep_leaf | exact H].
  - split; [reflexivity|]. exists (Ok tt). sweep_leaf.
Qed.

Lemma janitor_starts_with_glob (w : W) :
  exists r t, trace_of (janitor rt) w = EvGlob r :: t.
Proof.
  unfold janitor, trace_of, try_except, bind, call, ret.
  destruct (glob_star rt w) as [w1 [ps|e]]; simpl.
  - destruct (for_each ps (sweep_file rt) w1) as [[w2 t2] [[]|e]]; simpl;
      eexists _, _; reflexivity.
  - eexists _, _; reflexivity.
Qed.

Lemma janitor_events (w : W) :
  forallb is_janitor_event (trace_of (janitor rt) w) = true.
Proof. destruct (janitor_run w) as (_ & r & H & _). exact H. Qed.

(** The janitor unlinks [q] only after reading a modification time of [q]
    that is more than an hour below the event-loop clock. *)
Lemma janitor_unlink_guard (w : W) (q : path) (r : result unit) :
  In (EvUnlink q r) (trace_of (janitor rt) w) ->
  exists m tm,
    In (EvStat q (Ok m)) (trace_of (janitor rt) w)
    /\ In (EvLoopTime tm) (trace_of (janitor rt) w)
    /\ (m < tm - 60 * 60)%Z.
Proof. destruct (janitor_run w) as (_ & r0 & _ & _ & H). apply H. Qed.

(** C10: when an unlink raises during a sweep, it is the last call of the
    sweep (no later entry of the listing is examined or removed), the sweep
    makes no call to the chat, and it ends normally: the exception is
    swallowed. *)
Theorem janitor_stops_at_failed_unlink (w : W) (p : path) (e : exn) :
  In (EvUnlink p (Raise e)) (trace_of (janitor rt) w) ->
  (exists pre, trace_of (janitor rt) w = pre ++ [EvUnlink p (Raise e)])
  /\ forallb is_janitor_event (trace_of (janitor rt) w) = true
  /\ outcome_of (janitor rt) w = Ok tt.
Proof.
  intros H. destruct (janitor_run w) as (Hok & r & Hev & Hlast & _).
  apply Hlast in H. destruct H as [_ Hpre]. auto.
Qed.

End Janitor.

Lemma janitor_stops_at_failed_unlink_witness :
  In (EvUnlink old_file (Raise (Exception (lit "Permission denied"))))
     (trace_of (janitor sim_rt) sim_unlink_fails)
  /\ (exists pre,
        trace_of (janitor sim_rt) sim_unlink_fails
        = pre ++ [EvUnlink old_file
                    (Raise (Exception (lit "Permission denied")))])
  /\ forallb is_janitor_event (trace_of (janitor sim_rt) sim_unlink_fails)
     = true
  /\ outcome_of (janitor sim_rt) sim_unlink_fails = Ok tt.
Proof.
  assert (H : In (EvUnlink old_file
                    (Raise (Exception (lit "Permission denied"))))
                 (trace_of (janitor sim_rt) sim_unlink_fails)).
  { vm_compute. do 4 right. left. reflexivity. }
  split; [exact H|].
  apply (janitor_stops_at_failed_unlink sim_rt sim_unlink_fails old_file
           (Exception (lit "Permission denied"))).
  exact H.
Defined.

(** C1, at a directory holding files modified 30 and 90 minutes before the
    wall-clock time of the sweep: the older file is more than an hour old by
    the wall clock, yet the sweep unlinks nothing and both files remain,
    because the modification times are compared with the event loop's
    monotonic clock. *)
Theorem janitor_ignores_wall_clock :
  map (fun d => (d_mtime d <? wall_now - 60 * 60)%Z) two_files
  = [false; true]
  /\ existsb is_unlink (trace_of (janitor sim_rt) sim_ok) = false
  /\ map d_path (sim_dir (world_after (janitor sim_rt) sim_ok))
     = [fresh_file; old_file].
Proof. vm_compute. repeat split. Qed.

(** Were the clock read by the janitor the wall clock, the same sweep would
    remove exactly the file modified 90 minutes ago. *)
Example janitor_against_wall_clock :
  map d_path (sim_dir (world_after (janitor sim_rt) sim_wall_clock))
  = [fresh_file].
Proof. vm_compute. reflexivity. Qed.

(** ** The message handler *)

Lemma janitor_events_not_sent (t : list event) :
  forallb is_janitor_event t = true ->
  existsb is_attachment t = false /\ filter is_document t = []
  /\ forall ev, In ev t -> is_janitor_event ev = true.
Proof.
  intros H. rewrite forallb_forall in H. split; [|split].
  - destruct (existsb is_attachment t) eqn:E; [|reflexivity].
    apply existsb_exists in E. destruct E as (ev & Hin & Hev).
    apply H in Hin. destruct ev; discriminate.
  - induction t as [|ev t' IH]; [reflexivity|]. simpl.
    pose proof (H ev (or_introl eq_refl)) as Hev.
    destruct ev; try discriminate Hev; simpl;
      apply IH; intros x Hx; apply H; right; exact Hx.
  - exact H.
Qed.

Ltac run_handler rt :=
  unfold handle_text, trace_of, outcome_of, world_after, bind, call,
    try_except, try_finally, ret;
  repeat match goal with
         | |- context [rejected rt ?u] => destruct (rejected rt u) eqn:?
         | |- context [reply_text rt ?a ?w] =>
             destruct (reply_text rt a w) as [? [?|?]] eqn:?
         | |- context [send_action rt ?a ?w] =>
             destruct (send_action rt a w) as [? [[]|?]] eqn:?
         | |- context [ytdlp_download rt ?a ?w] =>
             destruct (ytdlp_download rt a w) as [? [[? ?]|?]] eqn:?
         | |- context [getsize rt ?a ?w] =>
             destruct (getsize rt a w) as [? [?|?]] eqn:?
         | |- context [reply_video rt ?a ?c ?w] =>
             destruct (reply_video rt a c w) as [? [[]|?]] eqn:?
         | |- context [reply_document rt ?a ?c ?w] =>
             destruct (reply_document rt a c w) as [? [[]|?]] eqn:?
         | |- context [message_delete rt ?a ?w] =>
             destruct (message_delete rt a w) as [? [[]|?]] eqn:?
         | |- context [message_edit_text rt ?a ?c ?w] =>
             destruct (message_edit_text rt a c w) as [? [[]|?]] eqn:?
         | |- context [janitor rt ?w] =>
             let Hok := fresh "Hok" in
             let Hst := fresh "Hst" in
             let Hev := fresh "Hev" in
             pose proof (proj1 (janitor_run rt w)) as Hok;
             pose proof (janitor_starts_with_glob rt w) as Hst;
             pose proof (janitor_events rt w) as Hev;
             unfold trace_of, outcome_of in Hok, Hst, Hev;
             destruct (janitor rt w) as [[? ?] ?] eqn:?;
             simpl in Hok, Hst, Hev; subst
         end;
  cbn [fst snd app].

Ltac in_janitor_absurd :=
  match goal with
  | H : In _ ?l, Hev : forallb is_janitor_event ?l = true |- _ =>
      apply (proj2 (proj2 (janitor_events_not_sent l Hev))) in H;
      discriminate H
  end.

Ltac in_cases H :=
  simpl in H;
  repeat (destruct H as [H|H]; [try discriminate H|]);
  try contradiction; try in_janitor_absurd.

Ltac janitor_tail :=
  match goal with
  | Hj : janitor _ ?w = (_, ?l, _) |- context [janitor _ _] =>
      exists w; rewrite Hj; cbn [fst snd]
  end.

Lemma error_text_contains (e : exn) : substring (exn_str e) (error_text e).
Proof.
  exists ([0x26A0; 0xFE0F] ++ lit " Error: "), [].
  unfold error_text. rewrite app_nil_r, app_assoc. reflexivity.
Qed.

Lemma cons_app_tail (a : event) (t pre l : list event) :
  t = pre ++ l -> a :: t = (a :: pre) ++ l.
Proof. intros ->. reflexivity. Qed.

Ltac split_tail :=
  repeat apply cons_app_tail; symmetry; apply app_nil_l.

Section HandlerFacts.

Context {W : Type} (rt : runtime W).

Lemma rejected_iff (text : str) :
  rejected rt (extract_url text) = true
  <-> extract_url text = None
      \/ exists url, extract_url text = Some url
                     /\ supports_site (str_lower rt) url = false.
Proof.
  destruct (extract_url text) as [u|] eqn:E.
  - assert (Hne : u <> []).
    { apply extract_url_shape in E. destruct E as (_ & (sch & body & -> & _ & Hb) & _).
      destruct sch; [exact Hb | discriminate]. }
    destruct u as [|c u']; [contradiction|]. simpl.
    rewrite negb_true_iff. split.
    + intros H. right. exists (c :: u'). auto.
    + intros [H|(url & H1 & H2)]; [discriminate|].
      injection H1 as <-. exact H2.
  - simpl. split; auto.
Qed.

(** C5: when no URL is extracted from the message, or the extracted URL
    fails the allow-list filter, the handler's only call is the reply with
    the fixed rejection text: no chat action, no progress message, no fetch,
    no send, no file-system call; the world is left as that reply left
    it. *)
Theorem handle_text_rejects (message_text : option str) (w : W) :
  (extract_url (text_or_empty message_text) = None
   \/ exists url, extract_url (text_or_empty message_text) = Some url
                  /\ supports_site (str_lower rt) url = false) ->
  trace_of (handle_text rt message_text) w
  = [EvReplyText REJECTION (snd (reply_text rt REJECTION w))]
  /\ world_after (handle_text rt message_text) w
     = fst (reply_text rt REJECTION w).
Proof.
  intros H. apply rejected_iff in H.
  unfold handle_text, trace_of, world_after, bind, call, ret. rewrite H.
  destruct (reply_text rt REJECTION w) as [w1 [m|e]]; split; reflexivity.
Qed.

(** C3: when the fetch raises [e], the handler's calls are: the chat
    action, the progress message, the fetch, the edit of the progress
    message to the error text made from [e], and then the janitor's sweep;
    the error text contains the text of [e] and nothing is sent as an
    attachment. *)
Theorem fetch_failure_reported (message_text : option str) (w : W)
    (url : str) (e : exn) :
  In (EvDownload url (Raise e)) (trace_of (handle_text rt message_text) w) ->
  exists status r w1,
    trace_of (handle_text rt message_text) w
    = [EvSendAction UPLOAD_VIDEO (Ok tt); EvReplyText PROGRESS (Ok status);
       EvDownload url (Raise e); EvEditText status (error_text e) r]
      ++ trace_of (janitor rt) w1
    /\ (exists rg t, trace_of (janitor rt) w1 = EvGlob rg :: t)
    /\ substring (exn_str e) (error_text e)
    /\ existsb is_attachment (trace_of (handle_text rt message_text) w)
       = false.
Proof.
  run_handler rt; intros H; in_cases H;
    injection H as Hu He; subst;
    eexists _, _; janitor_tail;
    (split; [reflexivity|]); (split; [assumption|]);
    (split; [apply error_text_contains|]);
    simpl; apply janitor_events_not_sent; assumption.
Qed.

(** C2: when the video send raises, the document send is attempted exactly
    once, with the file the fetch returned and the fallback caption for the
    same title; if it succeeds the progress message is deleted, and if it
    raises [e'] the progress message is edited to the error text made from
    [e']. *)
Theorem video_failure_falls_back (message_text : option str) (w : W)
    (file : path) (caption : str) (e : exn) :
  In (EvReplyVideo file caption (Raise e))
     (trace_of (handle_text rt message_text) w) ->
  exists status url info rd,
    In (EvReplyText PROGRESS (Ok status))
       (trace_of (handle_text rt message_text) w)
    /\ In (EvDownload url (Ok (file, info)))
          (trace_of (handle_text rt message_text) w)
    /\ caption = video_caption (dict_get info (lit "title") (lit "video"))
    /\ filter is_document (trace_of (handle_text rt message_text) w)
       = [EvReplyDocument file
            (document_caption (dict_get info (lit "title") (lit "video")))
            rd]
    /\ (rd = Ok tt ->
        exists r, In (EvDelete status r)
                     (trace_of (handle_text rt message_text) w))
    /\ (forall e', rd = Raise e' ->
        exists r, In (EvEditText status (error_text e') r)
                     (trace_of (handle_text rt message_text) w)).
Proof.
  run_handler rt; intros H; in_cases H;
    injection H as Hf Hc He; subst;
    eexists _, _, _, _;
    (split; [simpl; auto 10|]); (split; [simpl; auto 10|]);
    (split; [reflexivity|]);
    (split; [simpl;
             rewrite (proj1 (proj2 (janitor_events_not_sent _ Hev)));
             reflexivity|]);
    (split; [intros Hr; try discriminate Hr; eexists; simpl; auto 10|]);
    intros e' Hr; try discriminate Hr; injection Hr as <-;
    eexists; simpl; auto 10.
Qed.

(** C6, as amended: once the progress message has been sent, the handler
    ends with the janitor's sweep, whatever happened in between; no
    file-system call is made before that sweep, and the world the handler
    leaves is the one the sweep leaves. *)
Theorem janitor_runs_after_progress (message_text : option str) (w : W)
    (status : message) :
  In (EvReplyText PROGRESS (Ok status))
     (trace_of (handle_text rt message_text) w) ->
  exists pre w1,
    trace_of (handle_text rt message_text) w = pre ++ trace_of (janitor rt) w1
    /\ existsb is_janitor_event pre = false
    /\ (exists rg t, trace_of (janitor rt) w1 = EvGlob rg :: t)
    /\ world_after (handle_text rt message_text) w
       = world_after (janitor rt) w1.
Proof.
  run_handler rt; intros H; in_cases H;
    eexists; janitor_tail;
    (split; [split_tail|]); (split; [reflexivity|]);
    (split; [assumption | reflexivity]).
Qed.

End HandlerFacts.

Lemma handle_text_rejects_witness :
  (extract_url (text_or_empty (Some (lit "https://example.com/video"))) = None
   \/ exists url,
        extract_url (text_or_empty (Some (lit "https://example.com/video")))
        = Some url
        /\ supports_site (str_lower sim_rt) url = false)
  /\ trace_of (handle_text sim_rt (Some (lit "https://example.com/video")))
       sim_ok
     = [EvReplyText REJECTION (snd (reply_text sim_rt REJECTION sim_ok))]
  /\ world_after (handle_text sim_rt (Some (lit "https://example.com/video")))
       sim_ok
     = fst (reply_text sim_rt REJECTION sim_ok).
Proof.
  assert (H : extract_url (text_or_empty (Some (lit "https://example.com/video")))
              = None
              \/ exists url,
                  extract_url
                    (text_or_empty (Some (lit "https://example.com/video")))
                  = Some url
                  /\ supports_site (str_lower sim_rt) url = false).
  { right. exists (lit "https://example.com/video"). split; reflexivity. }
  split; [exact H|].
  apply (handle_text_rejects sim_rt (Some (lit "https://example.com/video"))
           sim_ok).
  exact H.
Defined.

Lemma fetch_failure_reported_witness :
  In (EvDownload (lit "https://youtu.be/abc123")
        (Raise (Exception (lit "network timeout"))))
     (trace_of
        (handle_text sim_rt
           (Some (lit "watch this https://youtu.be/abc123 nice")))
        sim_fetch_fails)
  /\ exists status r w1,
       trace_of
         (handle_text sim_rt
            (Some (lit "watch this https://youtu.be/abc123 nice")))
         sim_fetch_fails
       = [EvSendAction UPLOAD_VIDEO (Ok tt);
          EvReplyText PROGRESS (Ok status);
          EvDownload (lit "https://youtu.be/abc123")
            (Raise (Exception (lit "network timeout")));
          EvEditText status
            (error_text (Exception (lit "network timeout"))) r]
         ++ trace_of (janitor sim_rt) w1
       /\ (exists rg t, trace_of (janitor sim_rt) w1 = EvGlob rg :: t)
       /\ substring (exn_str (Exception (lit "network timeout")))
            (error_text (Exception (lit "network timeout")))
       /\ existsb is_attachment
            (trace_of
               (handle_text sim_rt
                  (Some (lit "watch this https://youtu.be/abc123 nice")))
               sim_fetch_fails)
          = false.
Proof.
  assert (H : In (EvDownload (lit "https://youtu.be/abc123")
                    (Raise (Exception (lit "network timeout"))))
                 (trace_of
                    (handle_text sim_rt
                       (Some (lit "watch this https://youtu.be/abc123 nice")))
                    sim_fetch_fails)).
  { vm_compute. do 2 right. left. reflexivity. }
  split; [exact H|].
  apply (fetch_failure_reported sim_rt
           (Some (lit "watch this https://youtu.be/abc123 nice"))
           sim_fetch_fails (lit "https://youtu.be/abc123")
           (Exception (lit "network timeout"))).
  exact H.
Defined.

Lemma video_failure_falls_back_witness :
  In (EvReplyVideo (fst clip) (video_caption (lit "clip"))
        (Raise (Exception (lit "Request Entity Too Large"))))
     (trace_of
        (handle_text sim_rt
           (Some (lit "watch this https://youtu.be/abc123 nice")))
        sim_video_fails)
  /\ exists status url info rd,
       In (EvReplyText PROGRESS (Ok status))
          (trace_of
             (handle_text sim_rt
                (Some (lit "watch this https://youtu.be/abc123 nice")))
             sim_video_fails)
       /\ In (EvDownload url (Ok (fst clip, info)))
             (trace_of
                (handle_text sim_rt
                   (Some (lit "watch this https://youtu.be/abc123 nice")))
                sim_video_fails)
       /\ video_caption (lit "clip")
          = video_caption (dict_get info (lit "title") (lit "video"))
       /\ filter is_document
            (trace_of
               (handle_text sim_rt
                  (Some (lit "watch this https://youtu.be/abc123 nice")))
               sim_video_fails)
          = [EvReplyDocument (fst clip)
               (document_caption
                  (dict_get info (lit "title") (lit "video")))
               rd]
       /\ (rd = Ok tt ->
           exists r,
             In (EvDelete status r)
                (trace_of
                   (handle_text sim_rt
                      (Some (lit "watch this https://youtu.be/abc123 nice")))
                   sim_video_fails))
       /\ (forall e', rd = Raise e' ->
           exists r,
             In (EvEditText status (error_text e') r)
                (trace_of
                   (handle_text sim_rt
                      (Some (lit "watch this https://youtu.be/abc123 nice")))
                   sim_video_fails)).
Proof.
  assert (H : In (EvReplyVideo (fst clip) (video_caption (lit "clip"))
                    (Raise (Exception (lit "Request Entity Too Large"))))
                 (trace_of
                    (handle_text sim_rt
                       (Some (lit "watch this https://youtu.be/abc123 nice")))
                    sim_video_fails)).
  { vm_compute. do 4 right. left. reflexivity. }
  split; [exact H|].
  apply (video_failure_falls_back sim_rt
           (Some (lit "watch this https://youtu.be/abc123 nice"))
           sim_video_fails (fst clip) (video_caption (lit "clip"))
           (Exception (lit "Request Entity Too Large"))).
  exact H.
Defined.

(** C6, as written, fails on a rejected message: the reply with the
    rejection text is the handler's only call, and no sweep is made. *)
Lemma rejection_skips_janitor :
  trace_of (handle_text sim_rt (Some (lit "hello world"))) sim_ok
  = [EvReplyText REJECTION (Ok 1)]
  /\ existsb is_janitor_event
       (trace_of (handle_text sim_rt (Some (lit "hello world"))) sim_ok)
     = false.
Proof. split; vm_compute; reflexivity. Qed.

Lemma janitor_runs_after_progress_witness :
  In (EvReplyText PROGRESS (Ok 1))
     (trace_of
        (handle_text sim_rt
           (Some (lit "watch this https://youtu.be/abc123 nice")))
        sim_ok)
  /\ exists pre w1,
       trace_of
         (handle_text sim_rt
            (Some (lit "watch this https://youtu.be/abc123 nice")))
         sim_ok
       = pre ++ trace_of (janitor sim_rt) w1
       /\ existsb is_janitor_event pre = false
       /\ (exists rg t, trace_of (janitor sim_rt) w1 = EvGlob rg :: t)
       /\ world_after
            (handle_text sim_rt
               (Some (lit "watch this https://youtu.be/abc123 nice")))
            sim_ok
          = world_after (janitor sim_rt) w1.
Proof.
  assert (H : In (EvReplyText PROGRESS (Ok 1))
                 (trace_of
                    (handle_text sim_rt
                       (Some (lit "watch this https://youtu.be/abc123 nice")))
                    sim_ok)).
  { vm_compute. right. left. reflexivity. }
  split; [exact H|].
  apply (janitor_runs_after_progress sim_rt
           (Some (lit "watch this https://youtu.be/abc123 nice")) sim_ok 1).
  exact H.
Defined.

(** * Further properties of the code *)

(** ** URL extraction *)

Lemma search_leading_space (a s : str) :
  forallb isspace a = true ->
  search URL_REGEX (a ++ s) = search URL_REGEX s.
Proof.
  induction a as [|c a' IH]; intros H; [reflexivity|].
  simpl in H. apply andb_prop in H. destruct H as [Hc Ha].
  rewrite search_cons. simpl app.
  rewrite match_at_space by exact Hc. apply IH, Ha.
Qed.

(** X1: whitespace before and after the text never changes what is
    extracted. *)
Theorem extract_url_padding (a text b : str) :
  forallb isspace a = true -> forallb isspace b = true ->
  extract_url (a ++ text ++ b) = extract_url text.
Proof.
  intros Ha Hb. rewrite !extract_url_search.
  rewrite search_leading_space by exact Ha.
  apply search_app_space, Hb.
Qed.

Lemma extract_url_padding_witness :
  forallb isspace [0x0A; 0x20] = true
  /\ forallb isspace [0x3000] = true
  /\ extract_url ([0x0A; 0x20] ++ lit "go https://youtu.be/x" ++ [0x3000])
     = extract_url (lit "go https://youtu.be/x").
Proof.
  split; [reflexivity|]. split; [reflexivity|].
  apply (extract_url_padding [0x0A; 0x20] (lit "go https://youtu.be/x")
           [0x3000]); reflexivity.
Defined.

(** X2: extraction is idempotent: a URL it returned is extracted from
    itself unchanged. *)
Theorem extract_url_idempotent (text u : str) :
  extract_url text = Some u -> extract_url u = Some u.
Proof.
  rewrite !extract_url_search. intros H. apply search_sound in H.
  destruct H as (_ & sch & body & _ & Hs & Hne & Hb & _ & _ & -> & _).
  rewrite search_cons.
  rewrite <- (app_nil_r body) at 1. rewrite match_at_complete; auto.
  exact I.
Qed.

Lemma extract_url_idempotent_witness :
  extract_url (lit "see HTTP://youtu.be/x now") = Some (lit "HTTP://youtu.be/x")
  /\ extract_url (lit "HTTP://youtu.be/x") = Some (lit "HTTP://youtu.be/x").
Proof.
  split; [reflexivity|].
  apply (extract_url_idempotent (lit "see HTTP://youtu.be/x now")).
  reflexivity.
Defined.

(** X3: extraction returns [u] exactly when the text splits into a part
    in which no URL starts, then [u] made of a scheme and a non-empty run of
    characters that are not whitespace, then whitespace or the end. *)
Theorem extract_url_some_iff (text u : str) :
  extract_url text = Some u
  <-> exists pre sch body rest,
        text = pre ++ sch ++ body ++ rest /\ u = sch ++ body
        /\ Scheme sch /\ body <> [] /\ forallb notspace body = true
        /\ Boundary rest
        /\ (forall p q, text = p ++ q -> (length p < length pre)%nat ->
                        ~ UrlStart q).
Proof.
  split.
  - rewrite extract_url_search. intros H. apply search_sound in H.
    destruct H as (pre & sch & body & rest & Hs & Hne & Hb & Hr & E & Hu & Hf).
    exists pre, sch, body, rest. repeat split; assumption.
  - intros (pre & sch & body & rest & -> & -> & Hs & Hne & Hb & Hr & Hf).
    apply extract_url_at; assumption.
Qed.

(** X4: extraction finds nothing exactly when at no position of the text a
    scheme is followed by a character that is not whitespace. *)
Theorem extract_url_absent_iff (text : str) :
  extract_url text = None
  <-> forall p q, text = p ++ q -> ~ UrlStart q.
Proof.
  rewrite extract_url_search. split.
  - intros H p q -> Hq. exact (search_some p q Hq H).
  - apply search_none.
Qed.

(** ** The allow-list filter *)

Lemma substring_app (h u a b : str) :
  substring h u -> substring h (a ++ u ++ b).
Proof.
  intros (pre & post & ->). exists (a ++ pre), (post ++ b).
  rewrite <- !app_assoc. reflexivity.
Qed.

(** X5: on ASCII text the filter only ever gains from more text: a URL it
    accepts is still accepted with any ASCII text put before or after
    it. *)
Theorem supports_site_monotone (lower : str -> str) (a url b : str) :
  (forall s, forallb is_ascii s = true -> lower s = map ascii_lower s) ->
  forallb is_ascii a = true -> forallb is_ascii url = true ->
  forallb is_ascii b = true ->
  supports_site lower url = true ->
  supports_site lower (a ++ url ++ b) = true.
Proof.
  intros Hl Ha Hu Hb. unfold supports_site.
  rewrite (Hl url Hu).
  rewrite Hl by (rewrite !forallb_app, Ha, Hu, Hb; reflexivity).
  rewrite !map_app, !existsb_exists.
  intros (host & Hin & H). exists host. split; [exact Hin|].
  apply contains_spec. apply contains_spec in H.
  apply substring_app, H.
Qed.

Lemma supports_site_monotone_witness :
  (forall s, forallb is_ascii s = true ->
             map ascii_lower s = map ascii_lower s)
  /\ forallb is_ascii (lit "http://evil.example/?next=") = true
  /\ forallb is_ascii (lit "TikTok.com") = true
  /\ forallb is_ascii (lit "/x") = true
  /\ supports_site (map ascii_lower) (lit "TikTok.com") = true
  /\ supports_site (map ascii_lower)
       (lit "http://evil.example/?next=" ++ lit "TikTok.com" ++ lit "/x")
     = true.
Proof.
  split; [intros s _; reflexivity|]. do 4 (split; [reflexivity|]).
  apply (supports_site_monotone (map ascii_lower)
           (lit "http://evil.example/?next=") (lit "TikTok.com") (lit "/x"));
    reflexivity.
Defined.

(** ** The fetcher *)

(** X6: when [ytdlp_download] returns, the metadata is the one
    [extract_info] gave, and the path is the prepared file name, unless that
    file is absent and its [.mp4] sibling exists, in which case it is the
    sibling; the prepared name is returned even when neither file
    exists. *)
Theorem ytdlp_download_result (lib : Fetcher.library) (url : str)
    (file_path : path) (info : dict) :
  Fetcher.ytdlp_download lib url = Ok (file_path, info) ->
  Fetcher.extract_info lib url = Ok info
  /\ exists prepared,
       Fetcher.prepare_filename lib info = Ok prepared
       /\ ((file_path = prepared
            /\ (Fetcher.os_path_exists lib prepared = true
                \/ exists alt,
                     Fetcher.with_suffix_mp4 lib prepared = Ok alt
                     /\ Fetcher.Path_exists lib alt = Ok false))
           \/ (Fetcher.os_path_exists lib prepared = false
               /\ Fetcher.with_suffix_mp4 lib prepared = Ok file_path
               /\ Fetcher.Path_exists lib file_path = Ok true)).
Proof.
  unfold Fetcher.ytdlp_download, Fetcher.download_block.
  destruct (Fetcher.get_ffmpeg_exe lib) as [ff|e]; [|discriminate].
  destruct (Fetcher.YoutubeDL_enter lib ff) as [[]|e]; [|discriminate].
  destruct (Fetcher.YoutubeDL_exit lib) as [[]|e]; [|discriminate].
  destruct (Fetcher.extract_info lib url) as [i|e]; [|discriminate].
  destruct (Fetcher.prepare_filename lib i) as [prep|e] eqn:Ep;
    [|discriminate].
  destruct (Fetcher.os_path_exists lib prep) eqn:Ex; simpl.
  - intros H. injection H as <- <-. split; [reflexivity|].
    exists prep. split; [exact Ep|]. left. auto.
  - destruct (Fetcher.with_suffix_mp4 lib prep) as [alt|e] eqn:Ea;
      [|discriminate].
    destruct (Fetcher.Path_exists lib alt) as [[|]|e] eqn:Eb;
      [| |discriminate]; intros H; injection H as <- <-;
      (split; [reflexivity|]); exists prep; (split; [exact Ep|]).
    + right. auto.
    + left. split; [reflexivity|]. right. exists alt. auto.
Qed.

Lemma ytdlp_download_result_witness :
  Fetcher.ytdlp_download Fetcher.merged (lit "https://youtu.be/x")
  = Ok (lit "/tmp/downloads/clip.mp4", [(lit "title", lit "clip")])
  /\ Fetcher.extract_info Fetcher.merged (lit "https://youtu.be/x")
     = Ok [(lit "title", lit "clip")]
  /\ exists prepared,
       Fetcher.prepare_filename Fetcher.merged [(lit "title", lit "clip")]
       = Ok prepared
       /\ ((lit "/tmp/downloads/clip.mp4" = prepared
            /\ (Fetcher.os_path_exists Fetcher.merged prepared = true
                \/ exists alt,
                     Fetcher.with_suffix_mp4 Fetcher.merged prepared = Ok alt
                     /\ Fetcher.Path_exists Fetcher.merged alt = Ok false))
           \/ (Fetcher.os_path_exists Fetcher.merged prepared = false
               /\ Fetcher.with_suffix_mp4 Fetcher.merged prepared
                  = Ok (lit "/tmp/downloads/clip.mp4")
               /\ Fetcher.Path_exists Fetcher.merged
                    (lit "/tmp/downloads/clip.mp4") = Ok true)).
Proof.
  split; [reflexivity|].
  apply (ytdlp_download_result Fetcher.merged (lit "https://youtu.be/x")).
  reflexivity.
Defined.

(** ** The message handler *)

Lemma filter_janitor_nil (P : event -> bool) (t : list event) :
  (forall ev, is_janitor_event ev = true -> P ev = false) ->
  forallb is_janitor_event t = true -> filter P t = [].
Proof.
  intros HP H. induction t as [|ev t' IH]; [reflexivity|].
  simpl in H. apply andb_prop in H. destruct H as [Hev Ht].
  simpl. rewrite (HP ev Hev). apply IH, Ht.
Qed.

Lemma str_eqb_eq (a b : str) : str_eqb a b = true <-> a = b.
Proof.
  revert b. induction a as [|x a' IH]; intros [|y b']; simpl;
    try (split; [discriminate | intros H; discriminate H]).
  - split; reflexivity.
  - rewrite andb_true_iff, N.eqb_eq, IH. split.
    + intros [-> ->]. reflexivity.
    + intros H. injection H as -> ->. auto.
Qed.

Lemma dict_get_missing (d : dict) (key default : str) :
  (forall v, ~ In (key, v) d) -> dict_get d key default = default.
Proof.
  induction d as [|[k v] tl IH]; intros H; [reflexivity|]. simpl.
  destruct (str_eqb k key) eqn:E.
  - apply str_eqb_eq in E. subst k. exfalso. apply (H v). left. reflexivity.
  - apply IH. intros v' Hv'. apply (H v'). right. exact Hv'.
Qed.

Ltac janitor_filter :=
  match goal with
  | Hev : forallb is_janitor_event ?l = true |- context [filter ?P ?l] =>
      rewrite (filter_janitor_nil P l) by
        (first [exact Hev | intros [] Hj; (discriminate Hj || reflexivity)])
  end.

Section HandlerMore.

Context {W : Type} (rt : runtime W).

Lemma rejected_false (o : option str) :
  rejected rt o = false ->
  exists u, o = Some u /\ supports_site (str_lower rt) u = true
            /\ match o with Some v => v | None => [] end = u.
Proof.
  destruct o as [[|c u]|]; simpl; try discriminate.
  intros H. apply negb_false_iff in H. exists (c :: u). auto.
Qed.

(** X7: the fetcher is called at most once per message, and only with the
    URL that was extracted from the message and passed the filter. *)
Theorem fetch_only_validated (message_text : option str) (w : W)
    (url : str) (r : result (path * dict)) :
  In (EvDownload url r) (trace_of (handle_text rt message_text) w) ->
  extract_url (text_or_empty message_text) = Some url
  /\ supports_site (str_lower rt) url = true
  /\ filter is_download (trace_of (handle_text rt message_text) w)
     = [EvDownload url r].
Proof.
  run_handler rt; intros H; in_cases H;
    injection H as Hu Hr; subst;
    match goal with
    | Hrej : rejected rt _ = false |- _ =>
        apply rejected_false in Hrej;
        destruct Hrej as (u & Hsome & Hsup & Hurl)
    end;
    rewrite Hurl; (split; [exact Hsome|]); (split; [exact Hsup|]);
    simpl; janitor_filter; reflexivity.
Qed.

(** X8: when the video send succeeds there is no fallback: the document
    send is never attempted, the video is sent once, and the deletion of
    the progress message is requested. *)
Theorem video_success_no_fallback (message_text : option str) (w : W)
    (file : path) (caption : str) :
  In (EvReplyVideo file caption (Ok tt))
     (trace_of (handle_text rt message_text) w) ->
  filter is_document (trace_of (handle_text rt message_text) w) = []
  /\ filter is_video (trace_of (handle_text rt message_text) w)
     = [EvReplyVideo file caption (Ok tt)]
  /\ exists status r,
       In (EvReplyText PROGRESS (Ok status))
          (trace_of (handle_text rt message_text) w)
       /\ In (EvDelete status r) (trace_of (handle_text rt message_text) w).
Proof.
  run_handler rt; intros H; in_cases H;
    injection H as Hf Hc; subst;
    simpl; repeat janitor_filter;
    (split; [reflexivity|]); (split; [reflexivity|]);
    eexists _, _; split; simpl; auto 10.
Qed.

(** X9: an exception leaves the handler only when a text reply, the chat
    action or the edit of the progress message raised it; exceptions of the
    fetcher, of [getsize], of the sends and of the deletion are all
    handled inside. *)
Theorem handler_raises_only_from_chat (message_text : option str) (w : W)
    (e : exn) :
  outcome_of (handle_text rt message_text) w = Raise e ->
  (exists text, In (EvReplyText text (Raise e))
                   (trace_of (handle_text rt message_text) w))
  \/ In (EvSendAction UPLOAD_VIDEO (Raise e))
        (trace_of (handle_text rt message_text) w)
  \/ (exists status text,
        In (EvEditText status text (Raise e))
           (trace_of (handle_text rt message_text) w)).
Proof.
  run_handler rt; intros H; try discriminate H; injection H as <-;
    first [ left; eexists; simpl; auto 10; fail
          | right; left; simpl; auto 10; fail
          | right; right; eexists _, _; simpl; auto 12 ].
Qed.

(** X10: when [os.path.getsize] raises on the fetched path (the file is
    not there), nothing is sent and the progress message is edited to the
    error text of that exception. *)
Theorem getsize_failure_reported (message_text : option str) (w : W)
    (file : path) (e : exn) :
  In (EvGetSize file (Raise e)) (trace_of (handle_text rt message_text) w) ->
  existsb is_attachment (trace_of (handle_text rt message_text) w) = false
  /\ exists status r,
       In (EvReplyText PROGRESS (Ok status))
          (trace_of (handle_text rt message_text) w)
       /\ In (EvEditText status (error_text e) r)
             (trace_of (handle_text rt message_text) w).
Proof.
  run_handler rt; intros H; in_cases H;
    injection H as Hf He; subst;
    (split; [simpl; apply janitor_events_not_sent; assumption|]);
    eexists _, _; split; simpl; auto 10.
Qed.

(** X11: when the deletion of the progress message raises, the file has
    already been delivered, and the progress message is still edited to
    the error text of that exception. *)
Theorem delete_failure_reported (message_text : option str) (w : W)
    (status : message) (e : exn) :
  In (EvDelete status (Raise e)) (trace_of (handle_text rt message_text) w) ->
  existsb is_delivered (trace_of (handle_text rt message_text) w) = true
  /\ exists r,
       In (EvEditText status (error_text e) r)
          (trace_of (handle_text rt message_text) w).
Proof.
  run_handler rt; intros H; in_cases H;
    injection H as Hs He; subst;
    (split; [reflexivity|]); eexists; simpl; auto 12.
Qed.

(** X12: when the metadata of the fetch has no [title] entry, every
    caption is built with the title [video]. *)
Theorem caption_default_title (message_text : option str) (w : W)
    (url : str) (file : path) (info : dict) :
  In (EvDownload url (Ok (file, info)))
     (trace_of (handle_text rt message_text) w) ->
  (forall v, ~ In (lit "title", v) info) ->
  forall ev, In ev (trace_of (handle_text rt message_text) w) ->
    match ev with
    | EvReplyVideo _ caption _ => caption = video_caption (lit "video")
    | EvReplyDocument _ caption _ => caption = document_caption (lit "video")
    | _ => True
    end.
Proof.
  run_handler rt; intros H Hno ev Hev'; in_cases H;
    injection H as Hu Hf Hi; subst;
    simpl in Hev';
    repeat (destruct Hev' as [Hev'|Hev']; [subst ev; simpl; auto|]);
    try (rewrite dict_get_missing by exact Hno; reflexivity);
    try contradiction;
    match goal with
    | Hj : forallb is_janitor_event ?l = true, Hi : In ev ?l |- _ =>
        apply (proj2 (proj2 (janitor_events_not_sent l Hj))) in Hi;
        destruct ev; try discriminate Hi; exact I
    end.
Qed.

(** X13: once the progress message is sent it is always dealt with: the
    handler requests its deletion or edits it to an error text; and after
    a deletion that succeeded it is never edited. *)
Theorem progress_message_resolved (message_text : option str) (w : W)
    (status : message) :
  In (EvReplyText PROGRESS (Ok status))
     (trace_of (handle_text rt message_text) w) ->
  ((exists r, In (EvDelete status r)
                 (trace_of (handle_text rt message_text) w))
   \/ exists e r, In (EvEditText status (error_text e) r)
                     (trace_of (handle_text rt message_text) w))
  /\ (In (EvDelete status (Ok tt)) (trace_of (handle_text rt message_text) w)
      -> filter is_edit (trace_of (handle_text rt message_text) w) = []).
Proof.
  run_handler rt; intros H; in_cases H;
    injection H as Hs; subst;
    (split;
     [ first [ left; eexists; simpl; auto 10; fail
             | right; eexists _, _; simpl; auto 12 ]
     | intros Hd; in_cases Hd; simpl; janitor_filter; reflexivity ]).
Qed.

End HandlerMore.

(** ** The janitor *)

Lemma sweep_scope_app (ps1 ps2 : list path) (t1 t2 : list event) :
  sweep_scope ps1 t1 -> sweep_scope ps2 t2 ->
  sweep_scope (ps1 ++ ps2) (t1 ++ t2).
Proof.
  intros H1 H2 ev Hin. apply in_app_or in Hin. destruct Hin as [Hin|Hin].
  - specialize (H1 ev Hin). destruct ev; try exact H1;
      try (destruct H1 as [Ha Hb]; split);
      try (apply in_or_app; left; assumption).
  - specialize (H2 ev Hin). destruct ev; try exact H2;
      try (destruct H2 as [Ha Hb]; split);
      try (apply in_or_app; right; assumption).
Qed.

Ltac scope_leaf :=
  intros ev Hin; simpl in Hin;
  repeat (destruct Hin as [Hin|Hin]; [subst ev; simpl; auto 10|]);
  try contradiction.

Section JanitorMore.

Context {W : Type} (rt : runtime W).

Lemma sweep_file_scope (p : path) (w : W) :
  sweep_scope [p] (trace_of (sweep_file rt p) w)
  /\ examined (trace_of (sweep_file rt p) w) = [p]
  /\ (forall e, outcome_of (sweep_file rt p) w = Raise e ->
                existsb raised (trace_of (sweep_file rt p) w) = true).
Proof.
  unfold sweep_file, trace_of, outcome_of, bind, call, read, ret.
  destruct (is_file rt p w) as [w1 [[|]|e1]];
    [destruct (stat_mtime rt p w1) as [w2 [m|e2]];
     [destruct (loop_time rt w2) as [w3 tm];
      destruct (m <? tm - 60 * 60)%Z;
      [destruct (unlink_missing_ok rt p w3) as [w4 [u|e4]]|]|]| |];
    simpl; (split; [scope_leaf|]); (split; [reflexivity|]);
    intros e H; (discriminate H || reflexivity).
Qed.

Lemma examined_app (t1 t2 : list event) :
  examined (t1 ++ t2) = examined t1 ++ examined t2.
Proof. unfold examined. apply flat_map_app. Qed.

Lemma for_each_scope (ps : list path) (w : W) :
  sweep_scope ps (trace_of (for_each ps (sweep_file rt)) w)
  /\ (exists rest,
        ps = examined (trace_of (for_each ps (sweep_file rt)) w) ++ rest
        /\ (outcome_of (for_each ps (sweep_file rt)) w = Ok tt -> rest = []))
  /\ (forall e, outcome_of (for_each ps (sweep_file rt)) w = Raise e ->
        existsb raised (trace_of (for_each ps (sweep_file rt)) w) = true).
Proof.
  revert w. induction ps as [|p tl IH]; intros w.
  - unfold trace_of, outcome_of. simpl. split; [intros ev []|].
    split; [exists []; auto|]. intros e H. discriminate H.
  - destruct (sweep_file_scope p w) as (Hs & Hx & Hr).
    unfold trace_of, outcome_of in *. simpl. unfold bind.
    destruct (sweep_file rt p w) as [[w1 t1] [u|e]]; simpl in *.
    + destruct (IH w1) as (Hs2 & (rest & Hrest & Hnil) & Hr2).
      destruct (for_each tl (sweep_file rt) w1) as [[w2 t2] r]. simpl in *.
      split; [apply (sweep_scope_app [p] tl); assumption|].
      split.
      * exists rest. rewrite examined_app, Hx. simpl. split.
        -- f_equal. exact Hrest.
        -- exact Hnil.
      * intros e H. rewrite existsb_app. rewrite (Hr2 e H).
        apply orb_true_r.
    + split.
      * intros ev Hin. specialize (Hs ev Hin).
        destruct ev; try exact Hs; simpl in Hs |- *;
          intuition (subst; auto).
      * split; [|exact Hr].
        exists tl. rewrite Hx. split; [reflexivity|]. intros H.
        discriminate H.
Qed.

(** X14: whatever the file system answers, the janitor ends normally; it
    begins by listing the directory and makes only file-system calls and
    clock readings. *)
Theorem janitor_never_raises (w : W) :
  outcome_of (janitor rt) w = Ok tt
  /\ forallb is_janitor_event (trace_of (janitor rt) w) = true
  /\ exists r t, trace_of (janitor rt) w = EvGlob r :: t.
Proof.
  split; [apply janitor_run|].
  split; [apply janitor_events | apply janitor_starts_with_glob].
Qed.

Lemma janitor_shape (w : W) :
  exists r t,
    trace_of (janitor rt) w = EvGlob r :: t
    /\ match r with
       | Ok ps =>
           sweep_scope ps t
           /\ exists rest,
                ps = examined t ++ rest
                /\ (existsb raised t = false -> rest = [])
       | Raise _ => t = []
       end.
Proof.
  unfold janitor, trace_of, try_except, bind, call, ret.
  destruct (glob_star rt w) as [w1 [ps|e]]; simpl.
  - destruct (for_each_scope ps w1) as (Hs & (rest & Hrest & Hnil) & Hr).
    unfold trace_of, outcome_of in *.
    destruct (for_each ps (sweep_file rt) w1) as [[w2 t2] [[]|e]];
      simpl in *.
    + exists (Ok ps), t2. split; [reflexivity|]. split; [exact Hs|].
      exists rest. split; [exact Hrest|]. intros _. apply Hnil. reflexivity.
    + exists (Ok ps), t2. rewrite app_nil_r. split; [reflexivity|].
      split; [exact Hs|]. exists rest. split; [exact Hrest|].
      intros H. rewrite (Hr e eq_refl) in H. discriminate H.
  - exists (Raise e), []. auto.
Qed.

(** X15: the janitor unlinks only entries of the listing it obtained, only
    after [is_file] answered true for the entry, and only when the
    modification time it read for the entry is more than an hour below a
    reading of the event-loop clock. *)
Theorem janitor_unlinks_listed_old_files (w : W) (q : path)
    (r : result unit) :
  In (EvUnlink q r) (trace_of (janitor rt) w) ->
  (exists ps, In (EvGlob (Ok ps)) (trace_of (janitor rt) w) /\ In q ps)
  /\ In (EvIsFile q (Ok true)) (trace_of (janitor rt) w)
  /\ exists m tm,
       In (EvStat q (Ok m)) (trace_of (janitor rt) w)
       /\ In (EvLoopTime tm) (trace_of (janitor rt) w)
       /\ (m < tm - 60 * 60)%Z.
Proof.
  intros H. split; [|split].
  - destruct (janitor_shape w) as (g & t & E & Hg). rewrite E in H |- *.
    destruct H as [H|H]; [discriminate H|].
    destruct g as [ps|e]; [|subst t; contradiction].
    destruct Hg as [Hs _]. specialize (Hs _ H). simpl in Hs.
    exists ps. split; [left; reflexivity | tauto].
  - destruct (janitor_shape w) as (g & t & E & Hg). rewrite E in H |- *.
    destruct H as [H|H]; [discriminate H|].
    destruct g as [ps|e]; [|subst t; contradiction].
    destruct Hg as [Hs _]. specialize (Hs _ H). simpl in Hs.
    right. tauto.
  - apply (janitor_unlink_guard rt w q r H).
Qed.

(** X16: the janitor looks at the entries in the order of the listing,
    each at most once; it looks at all of them unless one of its calls
    raised, and at none when the listing itself raised. *)
Theorem janitor_examines_in_order (w : W) :
  exists r t,
    trace_of (janitor rt) w = EvGlob r :: t
    /\ match r with
       | Ok ps =>
           exists rest,
             ps = examined t ++ rest
             /\ (existsb raised t = false -> rest = [])
       | Raise _ => t = []
       end.
Proof.
  destruct (janitor_shape w) as (r & t & E & H).
  exists r, t. split; [exact E|].
  destruct r as [ps|e]; [tauto | exact H].
Qed.

End JanitorMore.

(** ** The janitor on the simulated directory *)

Lemma find_by_path (l : list dirent) (d : dirent) :
  NoDup (map d_path l) -> In d l ->
  find (fun x => str_eqb (d_path x) (d_path d)) l = Some d.
Proof.
  induction l as [|x tl IH]; intros Hnd Hin; [contradiction|].
  simpl in Hnd. inversion Hnd as [|? ? Hx Htl]; subst. simpl.
  destruct Hin as [->|Hin].
  - rewrite (proj2 (str_eqb_eq _ _) eq_refl). reflexivity.
  - destruct (str_eqb (d_path x) (d_path d)) eqn:E.
    + apply str_eqb_eq in E. exfalso. apply Hx. rewrite E.
      apply in_map, Hin.
    + apply IH; assumption.
Qed.

Lemma same_path_same_entry (l : list dirent) (a b : dirent) :
  NoDup (map d_path l) -> In a l -> In b l -> d_path a = d_path b -> a = b.
Proof.
  intros Hnd Ha Hb E.
  pose proof (find_by_path l a Hnd Ha) as Fa.
  pose proof (find_by_path l b Hnd Hb) as Fb.
  rewrite E in Fa. rewrite Fa in Fb. injection Fb as Fb. exact Fb.
Qed.

Lemma NoDup_map_filter (f : dirent -> bool) (l : list dirent) :
  NoDup (map d_path l) -> NoDup (map d_path (filter f l)).
Proof.
  induction l as [|x tl IH]; intros H; [constructor|].
  simpl in H. inversion H as [|? ? Hx Htl]; subst. simpl.
  destruct (f x); [|apply IH, Htl]. simpl. constructor; [|apply IH, Htl].
  intros Hin. apply Hx. apply in_map_iff in Hin.
  destruct Hin as (y & Ey & Hy). apply filter_In in Hy.
  rewrite <- Ey. apply in_map, Hy.
Qed.

Lemma filter_filter (f g : dirent -> bool) (l : list dirent) :
  filter f (filter g l) = filter (fun x => g x && f x) l.
Proof.
  induction l as [|x tl IH]; [reflexivity|]. simpl.
  destruct (g x); simpl; [destruct (f x)|]; rewrite IH; reflexivity.
Qed.

Lemma filter_true (l : list dirent) : filter (fun _ => true) l = l.
Proof.
  induction l as [|x tl IH]; [reflexivity|]. simpl. f_equal. exact IH.
Qed.

(** One entry of the simulated directory, when its unlink does not
    raise: it is removed exactly when it is stale. *)
Lemma sweep_file_sim (d : dirent) (w : sim) :
  sim_find (d_path d) w = Some d ->
  sim_unlink w (d_path d) = Ok tt ->
  outcome_of (sweep_file sim_rt (d_path d)) w = Ok tt
  /\ world_after (sweep_file sim_rt (d_path d)) w
     = if stale (sim_loop_time w) d then sim_remove (d_path d) w else w.
Proof.
  intros Hf Hu.
  unfold sweep_file, outcome_of, world_after, bind, call, read, ret, stale.
  cbn [is_file stat_mtime loop_time unlink_missing_ok sim_rt].
  rewrite Hf. destruct (d_is_file d); cbn; [|auto].
  rewrite Hf. cbn.
  destruct (d_mtime d <? _)%Z; cbn; [|auto].
  rewrite Hu. cbn. auto.
Qed.

Lemma for_each_sim (todo : list dirent) (w : sim) :
  NoDup (map d_path (sim_dir w)) -> NoDup (map d_path todo) ->
  incl todo (sim_dir w) ->
  (forall p, sim_unlink w p = Ok tt) ->
  outcome_of (for_each (map d_path todo) (sweep_file sim_rt)) w = Ok tt
  /\ sim_dir (world_after (for_each (map d_path todo) (sweep_file sim_rt)) w)
     = filter (fun d => negb (stale (sim_loop_time w) d
                              && existsb (fun x => str_eqb (d_path x) (d_path d))
                                         todo))
              (sim_dir w).
Proof.
  revert w. induction todo as [|d0 todo' IH]; intros w Hnd Hnt Hincl Hun.
  - unfold outcome_of, world_after. simpl. split; [reflexivity|].
    symmetry. rewrite <- (filter_ext_in (fun _ => true)).
    + apply filter_true.
    + intros a _. rewrite andb_false_r. reflexivity.
  - assert (Hin0 : In d0 (sim_dir w)) by (apply Hincl; left; reflexivity).
    pose proof (find_by_path _ d0 Hnd Hin0) as Hfind.
    destruct (sweep_file_sim d0 w Hfind (Hun _)) as [Hok Hw].
    simpl in Hnt. inversion Hnt as [|? ? Hx Htl]; subst.
    unfold outcome_of, world_after in *. simpl map. simpl for_each.
    unfold bind.
    destruct (sweep_file sim_rt (d_path d0) w) as [[w1 t1] r1].
    simpl in Hok, Hw. subst r1.
    assert (Hstep :
      NoDup (map d_path (sim_dir w1)) /\ incl todo' (sim_dir w1)
      /\ (forall p, sim_unlink w1 p = Ok tt)
      /\ sim_loop_time w1 = sim_loop_time w
      /\ sim_dir w1
         = filter (fun d => negb (stale (sim_loop_time w) d0
                                  && str_eqb (d_path d) (d_path d0)))
                  (sim_dir w)).
    { subst w1. destruct (stale (sim_loop_time w) d0).
      - simpl. split; [apply NoDup_map_filter, Hnd|].
        split; [|split; [exact Hun|split; reflexivity]].
        intros d Hd. apply filter_In. split; [apply Hincl; right; exact Hd|].
        apply negb_true_iff. destruct (str_eqb (d_path d) (d_path d0)) eqn:E;
          [|reflexivity].
        apply str_eqb_eq in E. exfalso. apply Hx. rewrite <- E.
        apply in_map, Hd.
      - split; [exact Hnd|]. split; [intros d Hd; apply Hincl; right; exact Hd|].
        split; [exact Hun|]. split; [reflexivity|].
        simpl. symmetry. apply filter_true. }
    destruct Hstep as (Hnd1 & Hincl1 & Hun1 & Hclock & Hdir1).
    destruct (IH w1 Hnd1 Htl Hincl1 Hun1) as [Hok2 Hdir2].
    destruct (for_each (map d_path todo') (sweep_file sim_rt) w1)
      as [[w2 t2] r2].
    simpl in Hok2, Hdir2 |- *. split; [exact Hok2|].
    rewrite Hdir2, Hclock, Hdir1, filter_filter.
    apply filter_ext_in. intros a Ha.
    destruct (str_eqb (d_path a) (d_path d0)) eqn:Ea.
    + apply str_eqb_eq in Ea.
      assert (a = d0)
        by exact (same_path_same_entry (sim_dir w) a d0 Hnd Ha Hin0 Ea).
      subst a. rewrite (proj2 (str_eqb_eq _ _) eq_refl).
      destruct (stale (sim_loop_time w) d0); simpl; [reflexivity|].
      reflexivity.
    + assert (Eb : str_eqb (d_path d0) (d_path a) = false).
      { destruct (str_eqb (d_path d0) (d_path a)) eqn:Eb; [|reflexivity].
        apply str_eqb_eq in Eb. symmetry in Eb. apply str_eqb_eq in Eb.
        rewrite Eb in Ea. discriminate Ea. }
      simpl. rewrite Eb, andb_false_r. reflexivity.
Qed.

(** X17: on a directory whose entries have distinct paths and can all be
    removed, the janitor leaves exactly the entries that are not regular
    files or whose modification time is not more than an hour below the
    event-loop clock. *)
Theorem janitor_sim_removes_stale (w : sim) :
  NoDup (map d_path (sim_dir w)) ->
  (forall p, sim_unlink w p = Ok tt) ->
  sim_dir (world_after (janitor sim_rt) w)
  = filter (fun d => negb (stale (sim_loop_time w) d)) (sim_dir w).
Proof.
  intros Hnd Hun.
  destruct (for_each_sim (sim_dir w) w Hnd Hnd (fun d H => H) Hun)
    as [Hok Hdir].
  unfold janitor, world_after, outcome_of, try_except, bind, call, ret in *.
  cbn [glob_star sim_rt].
  destruct (for_each (map d_path (sim_dir w)) (sweep_file sim_rt) w)
    as [[w2 t2] r2].
  simpl in Hok, Hdir |- *. subst r2. simpl. rewrite Hdir.
  apply filter_ext_in. intros a Ha.
  assert (E : existsb (fun x => str_eqb (d_path x) (d_path a)) (sim_dir w)
              = true).
  { apply existsb_exists. exists a. split; [exact Ha|].
    apply str_eqb_eq. reflexivity. }
  rewrite E, andb_true_r. reflexivity.
Qed.

Lemma janitor_sim_removes_stale_witness :
  NoDup (map d_path (sim_dir sim_wall_clock))
  /\ (forall p, sim_unlink sim_wall_clock p = Ok tt)
  /\ sim_dir (world_after (janitor sim_rt) sim_wall_clock)
     = filter (fun d => negb (stale (sim_loop_time sim_wall_clock) d))
              (sim_dir sim_wall_clock).
Proof.
  assert (H : NoDup (map d_path (sim_dir sim_wall_clock))).
  { simpl. constructor.
    - intros [E|[]]. vm_compute in E. discriminate E.
    - constructor; [intros []|constructor]. }
  split; [exact H|]. split; [intros p; reflexivity|].
  apply (janitor_sim_removes_stale sim_wall_clock H).
  intros p. reflexivity.
Defined.

(** ** Instances in the simulated world *)

Lemma fetch_only_validated_witness :
  In (EvDownload (lit "https://youtu.be/abc123") (Ok clip))
     (trace_of (handle_text sim_rt link_message) sim_ok)
  /\ extract_url (text_or_empty link_message)
     = Some (lit "https://youtu.be/abc123")
  /\ supports_site (str_lower sim_rt) (lit "https://youtu.be/abc123") = true
  /\ filter is_download (trace_of (handle_text sim_rt link_message) sim_ok)
     = [EvDownload (lit "https://youtu.be/abc123") (Ok clip)].
Proof.
  assert (H : In (EvDownload (lit "https://youtu.be/abc123") (Ok clip))
                 (trace_of (handle_text sim_rt link_message) sim_ok)).
  { vm_compute. do 2 right. left. reflexivity. }
  split; [exact H|].
  apply (fetch_only_validated sim_rt link_message sim_ok
           (lit "https://youtu.be/abc123") (Ok clip)).
  exact H.
Defined.

Lemma video_success_no_fallback_witness :
  In (EvReplyVideo (fst clip) (video_caption (lit "clip")) (Ok tt))
     (trace_of (handle_text sim_rt link_message) sim_ok)
  /\ filter is_document (trace_of (handle_text sim_rt link_message) sim_ok)
     = []
  /\ filter is_video (trace_of (handle_text sim_rt link_message) sim_ok)
     = [EvReplyVideo (fst clip) (video_caption (lit "clip")) (Ok tt)]
  /\ exists status r,
       In (EvReplyText PROGRESS (Ok status))
          (trace_of (handle_text sim_rt link_message) sim_ok)
       /\ In (EvDelete status r)
             (trace_of (handle_text sim_rt link_message) sim_ok).
Proof.
  assert (H : In (EvReplyVideo (fst clip) (video_caption (lit "clip"))
                    (Ok tt))
                 (trace_of (handle_text sim_rt link_message) sim_ok)).
  { vm_compute. do 4 right. left. reflexivity. }
  split; [exact H|].
  apply (video_success_no_fallback sim_rt link_message sim_ok (fst clip)
           (video_caption (lit "clip"))).
  exact H.
Defined.

Lemma handler_raises_only_from_chat_witness :
  outcome_of
    (handle_text
       (sim_rt_with (Ok 1%Z) (Ok tt)
          (Raise (Exception (lit "Message to edit not found"))))
       link_message) sim_fetch_fails
  = Raise (Exception (lit "Message to edit not found"))
  /\ ((exists text,
         In (EvReplyText text
               (Raise (Exception (lit "Message to edit not found"))))
            (trace_of
               (handle_text
                  (sim_rt_with (Ok 1%Z) (Ok tt)
                     (Raise (Exception (lit "Message to edit not found"))))
                  link_message) sim_fetch_fails))
      \/ In (EvSendAction UPLOAD_VIDEO
               (Raise (Exception (lit "Message to edit not found"))))
            (trace_of
               (handle_text
                  (sim_rt_with (Ok 1%Z) (Ok tt)
                     (Raise (Exception (lit "Message to edit not found"))))
                  link_message) sim_fetch_fails)
      \/ (exists status text,
            In (EvEditText status text
                  (Raise (Exception (lit "Message to edit not found"))))
               (trace_of
                  (handle_text
                     (sim_rt_with (Ok 1%Z) (Ok tt)
                        (Raise (Exception (lit "Message to edit not found"))))
                     link_message) sim_fetch_fails))).
Proof.
  split; [reflexivity|].
  apply (handler_raises_only_from_chat
           (sim_rt_with (Ok 1%Z) (Ok tt)
              (Raise (Exception (lit "Message to edit not found"))))
           link_message sim_fetch_fails
           (Exception (lit "Message to edit not found"))).
  reflexivity.
Defined.

Lemma getsize_failure_reported_witness :
  In (EvGetSize (fst clip) (Raise (Exception (lit "No such file or directory"))))
     (trace_of
        (handle_text
           (sim_rt_with (Raise (Exception (lit "No such file or directory")))
              (Ok tt) (Ok tt))
           link_message) sim_ok)
  /\ existsb is_attachment
       (trace_of
          (handle_text
             (sim_rt_with
                (Raise (Exception (lit "No such file or directory")))
                (Ok tt) (Ok tt))
             link_message) sim_ok)
     = false
  /\ exists status r,
       In (EvReplyText PROGRESS (Ok status))
          (trace_of
             (handle_text
                (sim_rt_with
                   (Raise (Exception (lit "No such file or directory")))
                   (Ok tt) (Ok tt))
                link_message) sim_ok)
       /\ In (EvEditText status
                (error_text (Exception (lit "No such file or directory"))) r)
             (trace_of
                (handle_text
                   (sim_rt_with
                      (Raise (Exception (lit "No such file or directory")))
                      (Ok tt) (Ok tt))
                   link_message) sim_ok).
Proof.
  assert (H : In (EvGetSize (fst clip)
                    (Raise (Exception (lit "No such file or directory"))))
                 (trace_of
                    (handle_text
                       (sim_rt_with
                          (Raise (Exception (lit "No such file or directory")))
                          (Ok tt) (Ok tt))
                       link_message) sim_ok)).
  { vm_compute. do 3 right. left. reflexivity. }
  split; [exact H|].
  apply (getsize_failure_reported
           (sim_rt_with (Raise (Exception (lit "No such file or directory")))
              (Ok tt) (Ok tt))
           link_message sim_ok (fst clip)
           (Exception (lit "No such file or directory"))).
  exact H.
Defined.

Lemma delete_failure_reported_witness :
  In (EvDelete 1 (Raise (Exception (lit "Message can't be deleted"))))
     (trace_of
        (handle_text
           (sim_rt_with (Ok 1%Z)
              (Raise (Exception (lit "Message can't be deleted"))) (Ok tt))
           link_message) sim_ok)
  /\ existsb is_delivered
       (trace_of
          (handle_text
             (sim_rt_with (Ok 1%Z)
                (Raise (Exception (lit "Message can't be deleted"))) (Ok tt))
             link_message) sim_ok)
     = true
  /\ exists r,
       In (EvEditText 1
             (error_text (Exception (lit "Message can't be deleted"))) r)
          (trace_of
             (handle_text
                (sim_rt_with (Ok 1%Z)
                   (Raise (Exception (lit "Message can't be deleted")))
                   (Ok tt))
                link_message) sim_ok).
Proof.
  assert (H : In (EvDelete 1
                    (Raise (Exception (lit "Message can't be deleted"))))
                 (trace_of
                    (handle_text
                       (sim_rt_with (Ok 1%Z)
                          (Raise (Exception (lit "Message can't be deleted")))
                          (Ok tt))
                       link_message) sim_ok)).
  { vm_compute. do 5 right. left. reflexivity. }
  split; [exact H|].
  apply (delete_failure_reported
           (sim_rt_with (Ok 1%Z)
              (Raise (Exception (lit "Message can't be deleted"))) (Ok tt))
           link_message sim_ok 1
           (Exception (lit "Message can't be deleted"))).
  exact H.
Defined.

Lemma caption_default_title_witness :
  In (EvDownload (lit "https://youtu.be/abc123")
        (Ok (lit "/tmp/downloads/NA.mp4", [(lit "ext", lit "mp4")])))
     (trace_of (handle_text sim_rt link_message) sim_untitled)
  /\ (forall v, ~ In (lit "title", v) [(lit "ext", lit "mp4")])
  /\ forall ev,
       In ev (trace_of (handle_text sim_rt link_message) sim_untitled) ->
       match ev with
       | EvReplyVideo _ caption _ => caption = video_caption (lit "video")
       | EvReplyDocument _ caption _ =>
           caption = document_caption (lit "video")
       | _ => True
       end.
Proof.
  assert (H : In (EvDownload (lit "https://youtu.be/abc123")
                    (Ok (lit "/tmp/downloads/NA.mp4",
                         [(lit "ext", lit "mp4")])))
                 (trace_of (handle_text sim_rt link_message) sim_untitled)).
  { vm_compute. do 2 right. left. reflexivity. }
  assert (Hno : forall v, ~ In (lit "title", v) [(lit "ext", lit "mp4")]).
  { intros v [E|[]]. vm_compute in E. discriminate E. }
  split; [exact H|]. split; [exact Hno|].
  apply (caption_default_title sim_rt link_message sim_untitled
           (lit "https://youtu.be/abc123") (lit "/tmp/downloads/NA.mp4")
           [(lit "ext", lit "mp4")]).
  - exact H.
  - exact Hno.
Defined.

Lemma progress_message_resolved_witness :
  In (EvReplyText PROGRESS (Ok 1))
     (trace_of (handle_text sim_rt link_message) sim_ok)
  /\ ((exists r, In (EvDelete 1 r)
                    (trace_of (handle_text sim_rt link_message) sim_ok))
      \/ exists e r, In (EvEditText 1 (error_text e) r)
                        (trace_of (handle_text sim_rt link_message) sim_ok))
  /\ (In (EvDelete 1 (Ok tt))
         (trace_of (handle_text sim_rt link_message) sim_ok)
      -> filter is_edit (trace_of (handle_text sim_rt link_message) sim_ok)
         = []).
Proof.
  assert (H : In (EvReplyText PROGRESS (Ok 1))
                 (trace_of (handle_text sim_rt link_message) sim_ok)).
  { vm_compute. right. left. reflexivity. }
  split; [exact H|].
  apply (progress_message_resolved sim_rt link_message sim_ok 1).
  exact H.
Defined.

Lemma janitor_unlinks_listed_old_files_witness :
  In (EvUnlink old_file (Ok tt)) (trace_of (janitor sim_rt) sim_wall_clock)
  /\ (exists ps,
        In (EvGlob (Ok ps)) (trace_of (janitor sim_rt) sim_wall_clock)
        /\ In old_file ps)
  /\ In (EvIsFile old_file (Ok true))
        (trace_of (janitor sim_rt) sim_wall_clock)
  /\ exists m tm,
       In (EvStat old_file (Ok m)) (trace_of (janitor sim_rt) sim_wall_clock)
       /\ In (EvLoopTime tm) (trace_of (janitor sim_rt) sim_wall_clock)
       /\ (m < tm - 60 * 60)%Z.
Proof.
  assert (H : In (EvUnlink old_file (Ok tt))
                 (trace_of (janitor sim_rt) sim_wall_clock)).
  { vm_compute. do 7 right. left. reflexivity. }
  split; [exact H|].
  apply (janitor_unlinks_listed_old_files sim_rt sim_wall_clock old_file
           (Ok tt)).
  exact H.
Defined.
